(** * Circular-motion simulation model (src/pages/SimulationPage.tsx)

    A shallow embedding of [CircularMotionSimulationModel]: the stepper,
    the rope-break transition, the trajectory sampler and [reset].

    JavaScript numbers are idealised as real numbers ([R]): rounding,
    infinities and NaN are outside the model.  [Math.PI], [Math.cos] and
    [Math.sin] are the Standard Library's [PI], [cos] and [sin].  The
    mutable object becomes a record passed from call to call; every
    [Vector2] stored by the class is a fresh copy (object spread) or is
    owned by the model alone, so values suffice and no store is needed.
    Where rounding decides what the program does (the break test at
    the limit, the wrap of the angle) the class is embedded a second time
    on binary64 numbers (module [Binary64]). *)

From Stdlib Require Import Reals Lra Lia List Arith.
From Stdlib Require Floats.
From Stdlib Require QArith.
From Stdlib Require String.
Import ListNotations.

Open Scope R_scope.

(** ** Data model *)

Record Vector2 : Type := mkVector2 { x : R; y : R }.

Inductive SimulationState : Type :=
| NORMAL_CIRCULAR_MOTION
| ROPE_BROKEN.

Inductive RotationDirection : Type :=
| CLOCKWISE
| COUNTERCLOCKWISE.

(** The public fields of the class, with the one private field that
    changes ([trajectoryCounter]). *)
Record CircularMotionSimulationModel : Type := mkModel {
  angle : R;
  mass : R;
  angularVelocity : R;
  maxTension : R;
  radius : R;
  centerPosition : Vector2;
  rotationDirection : RotationDirection;
  state : SimulationState;
  brokenPosition : Vector2;
  brokenVelocity : Vector2;
  trajectoryPoints : list Vector2;
  maxTrajectoryPoints : nat;
  trajectoryCounter : nat
}.

Abbreviation Model := CircularMotionSimulationModel.

(** Private fields that are initialised once and never assigned. *)
Definition trajectoryInterval : nat := 3.
Definition timeScale : R := 0.016.
Definition pixelsPerMeter : R := 100.

(** The field initialisers of the class. *)
Definition initialModel : Model :=
  {| angle := 0;
     mass := 1;
     angularVelocity := 0.5;
     maxTension := 5;
     radius := 1.0;
     centerPosition := {| x := 300; y := 220 |};
     rotationDirection := CLOCKWISE;
     state := NORMAL_CIRCULAR_MOTION;
     brokenPosition := {| x := 0; y := 0 |};
     brokenVelocity := {| x := 0; y := 0 |};
     trajectoryPoints := [];
     maxTrajectoryPoints := 200;
     trajectoryCounter := 0 |}.

(** ** Field assignment *)

Definition set_angle (v : R) (m : Model) : Model :=
  mkModel v (mass m) (angularVelocity m) (maxTension m) (radius m)
    (centerPosition m) (rotationDirection m) (state m) (brokenPosition m)
    (brokenVelocity m) (trajectoryPoints m) (maxTrajectoryPoints m)
    (trajectoryCounter m).

Definition set_mass (v : R) (m : Model) : Model :=
  mkModel (angle m) v (angularVelocity m) (maxTension m) (radius m)
    (centerPosition m) (rotationDirection m) (state m) (brokenPosition m)
    (brokenVelocity m) (trajectoryPoints m) (maxTrajectoryPoints m)
    (trajectoryCounter m).

Definition set_angularVelocity (v : R) (m : Model) : Model :=
  mkModel (angle m) (mass m) v (maxTension m) (radius m)
    (centerPosition m) (rotationDirection m) (state m) (brokenPosition m)
    (brokenVelocity m) (trajectoryPoints m) (maxTrajectoryPoints m)
    (trajectoryCounter m).

Definition set_maxTension (v : R) (m : Model) : Model :=
  mkModel (angle m) (mass m) (angularVelocity m) v (radius m)
    (centerPosition m) (rotationDirection m) (state m) (brokenPosition m)
    (brokenVelocity m) (trajectoryPoints m) (maxTrajectoryPoints m)
    (trajectoryCounter m).

Definition set_radius (v : R) (m : Model) : Model :=
  mkModel (angle m) (mass m) (angularVelocity m) (maxTension m) v
    (centerPosition m) (rotationDirection m) (state m) (brokenPosition m)
    (brokenVelocity m) (trajectoryPoints m) (maxTrajectoryPoints m)
    (trajectoryCounter m).

Definition set_rotationDirection (v : RotationDirection) (m : Model) : Model :=
  mkModel (angle m) (mass m) (angularVelocity m) (maxTension m) (radius m)
    (centerPosition m) v (state m) (brokenPosition m)
    (brokenVelocity m) (trajectoryPoints m) (maxTrajectoryPoints m)
    (trajectoryCounter m).

Definition set_state (v : SimulationState) (m : Model) : Model :=
  mkModel (angle m) (mass m) (angularVelocity m) (maxTension m) (radius m)
    (centerPosition m) (rotationDirection m) v (brokenPosition m)
    (brokenVelocity m) (trajectoryPoints m) (maxTrajectoryPoints m)
    (trajectoryCounter m).

Definition set_brokenPosition (v : Vector2) (m : Model) : Model :=
  mkModel (angle m) (mass m) (angularVelocity m) (maxTension m) (radius m)
    (centerPosition m) (rotationDirection m) (state m) v
    (brokenVelocity m) (trajectoryPoints m) (maxTrajectoryPoints m)
    (trajectoryCounter m).

Definition set_brokenVelocity (v : Vector2) (m : Model) : Model :=
  mkModel (angle m) (mass m) (angularVelocity m) (maxTension m) (radius m)
    (centerPosition m) (rotationDirection m) (state m) (brokenPosition m)
    v (trajectoryPoints m) (maxTrajectoryPoints m)
    (trajectoryCounter m).

Definition set_trajectoryPoints (v : list Vector2) (m : Model) : Model :=
  mkModel (angle m) (mass m) (angularVelocity m) (maxTension m) (radius m)
    (centerPosition m) (rotationDirection m) (state m) (brokenPosition m)
    (brokenVelocity m) v (maxTrajectoryPoints m)
    (trajectoryCounter m).

Definition set_trajectoryCounter (v : nat) (m : Model) : Model :=
  mkModel (angle m) (mass m) (angularVelocity m) (maxTension m) (radius m)
    (centerPosition m) (rotationDirection m) (state m) (brokenPosition m)
    (brokenVelocity m) (trajectoryPoints m) (maxTrajectoryPoints m)
    v.

(** ** Derived quantities *)

(** [get centripetalForce]: the product is taken left to right. *)
Definition centripetalForce (m : Model) : R :=
  mass m * angularVelocity m * angularVelocity m * radius m.

(** [get linearVelocity]. *)
Definition linearVelocity (m : Model) : R :=
  angularVelocity m * radius m.

(** ** Queries *)

(** [getBlockPosition]: the projected point on the orbit while the rope
    holds, the free body's position once it has broken. *)
Definition getBlockPosition (m : Model) : Vector2 :=
  match state m with
  | NORMAL_CIRCULAR_MOTION =>
      let radiusPixels := radius m * pixelsPerMeter in
      {| x := x (centerPosition m) + radiusPixels * cos (angle m);
         y := y (centerPosition m) + radiusPixels * sin (angle m) * 0.3 |}
  | ROPE_BROKEN => brokenPosition m
  end.

(** [getCurrentVelocity]: the tangent angle is [angle + PI / 2] whatever
    the rotation direction. *)
Definition getCurrentVelocity (m : Model) : Vector2 :=
  let tangentAngle := angle m + PI / 2 in
  let velocity := linearVelocity m in
  {| x := velocity * cos tangentAngle;
     y := velocity * sin tangentAngle |}.

(** The sign chosen from [rotationDirection] in [step] and in
    [LinearVelocityArrowNode.render]. *)
Definition directionMultiplier (d : RotationDirection) : R :=
  match d with
  | CLOCKWISE => 1
  | COUNTERCLOCKWISE => -1
  end.

(** [LinearVelocityArrowNode.render], NORMAL branch: the angle along which
    the velocity arrow is drawn while the body is on the orbit.  (The
    BROKEN branch reads the direction back from [brokenVelocity].) *)
Definition arrowTangentAngle (m : Model) : R :=
  angle m + (PI / 2) * directionMultiplier (rotationDirection m).

(** ** Operations *)

(** [breakRope]: both snapshots are read before the state changes. *)
Definition breakRope (m : Model) : Model :=
  let currentPosition := getBlockPosition m in
  let currentVelocity := getCurrentVelocity m in
  set_brokenVelocity currentVelocity
    (set_brokenPosition currentPosition
       (set_state ROPE_BROKEN m)).

(** [collectTrajectoryPoint]: [push] appends at the end, [shift] removes
    the first element. *)
Definition collectTrajectoryPoint (m : Model) : Model :=
  let m1 := set_trajectoryCounter (S (trajectoryCounter m)) m in
  if (trajectoryInterval <=? trajectoryCounter m1)%nat then
    let currentPos := getBlockPosition m1 in
    let pushed := trajectoryPoints m1 ++ [currentPos] in
    let kept :=
      if (maxTrajectoryPoints m1 <? length pushed)%nat
      then tl pushed else pushed in
    set_trajectoryCounter 0%nat (set_trajectoryPoints kept m1)
  else m1.

(** [step]: [deltaTime] is accepted and ignored, as in the source.  The
    [return] taken when the angular velocity is zero leaves the method
    before the trajectory point is collected. *)
Definition step (deltaTime : R) (m : Model) : Model :=
  match state m with
  | NORMAL_CIRCULAR_MOTION =>
      if Req_dec_T (angularVelocity m) 0 then m
      else
        collectTrajectoryPoint
          (if Rgt_dec (centripetalForce m) (maxTension m) then breakRope m
           else
             let a :=
               angle m
               + angularVelocity m * timeScale
                 * directionMultiplier (rotationDirection m) in
             if Rge_dec a (2 * PI) then set_angle (a - 2 * PI) m
             else if Rlt_dec a 0 then set_angle (a + 2 * PI) m
             else set_angle a m)
  | ROPE_BROKEN =>
      let velocityPixelsPerFrame :=
        {| x := x (brokenVelocity m) * pixelsPerMeter * timeScale;
           y := y (brokenVelocity m) * pixelsPerMeter * timeScale * 0.3 |} in
      collectTrajectoryPoint
        (set_brokenPosition
           {| x := x (brokenPosition m) + x velocityPixelsPerFrame;
              y := y (brokenPosition m) + y velocityPixelsPerFrame |}
           m)
  end.

(** [reset]. *)
Definition reset (m : Model) : Model :=
  set_trajectoryCounter 0%nat
    (set_trajectoryPoints []
       (set_brokenVelocity {| x := 0; y := 0 |}
          (set_brokenPosition {| x := 0; y := 0 |}
             (set_angle 0
                (set_state NORMAL_CIRCULAR_MOTION m))))).

(** [clearTrajectory]. *)
Definition clearTrajectory (m : Model) : Model :=
  set_trajectoryCounter 0%nat (set_trajectoryPoints [] m).

(** ** Sessions

    What the page does to the model between two frames: the animation
    loop calls [step], the buttons call [reset] and [clearTrajectory],
    and the parameter controls assign the five scalar fields. *)
Inductive Call : Type :=
| CallStep (deltaTime : R)
| CallReset
| CallClearTrajectory
| AssignMass (v : R)
| AssignAngularVelocity (v : R)
| AssignMaxTension (v : R)
| AssignRadius (v : R)
| AssignRotationDirection (v : RotationDirection).

Definition exec (c : Call) (m : Model) : Model :=
  match c with
  | CallStep deltaTime => step deltaTime m
  | CallReset => reset m
  | CallClearTrajectory => clearTrajectory m
  | AssignMass v => set_mass v m
  | AssignAngularVelocity v => set_angularVelocity v m
  | AssignMaxTension v => set_maxTension v m
  | AssignRadius v => set_radius v m
  | AssignRotationDirection v => set_rotationDirection v m
  end.

Fixpoint run (calls : list Call) (m : Model) : Model :=
  match calls with
  | [] => m
  | c :: rest => run rest (exec c m)
  end.

(** [steps n m]: [n] consecutive frames with no assignment in between,
    each calling [step 1] as the animation loop does. *)
Fixpoint steps (n : nat) (m : Model) : Model :=
  match n with
  | O => m
  | S k => steps k (step 1 m)
  end.

(** ** The model on binary64 numbers

    The same class with every number a binary64 float and every
    operation rounded as JavaScript rounds it, for the two places where
    rounding decides: the break test and the wrap of the angle.
    [Math.PI] is the double nearest to pi; [Math.cos] and [Math.sin],
    which the language leaves to the implementation, are parameters.
    [>], [>=], [<] and [===] on numbers are [ltb], [leb] and [eqb]. *)
Module Binary64.
Import PrimFloat.
Local Open Scope float_scope.

Record Vector2 : Type := mkVector2 { x : float; y : float }.

Record CircularMotionSimulationModel : Type := mkModel {
  angle : float;
  mass : float;
  angularVelocity : float;
  maxTension : float;
  radius : float;
  centerPosition : Vector2;
  rotationDirection : RotationDirection;
  state : SimulationState;
  brokenPosition : Vector2;
  brokenVelocity : Vector2;
  trajectoryPoints : list Vector2;
  maxTrajectoryPoints : nat;
  trajectoryCounter : nat
}.

#[warnings="-inexact-float"]
Definition timeScale : float := 0.016.

Definition pixelsPerMeter : float := 100.

(** [Math.PI]. *)
Definition PI : float := 0x1.921fb54442d18p+1.

(** The literal [0.3] of the projection. *)
#[warnings="-inexact-float"]
Definition squash : float := 0.3.

Definition initialModel : CircularMotionSimulationModel :=
  {| angle := 0;
     mass := 1;
     angularVelocity := 0.5;
     maxTension := 5;
     radius := 1;
     centerPosition := {| x := 300; y := 220 |};
     rotationDirection := CLOCKWISE;
     state := NORMAL_CIRCULAR_MOTION;
     brokenPosition := {| x := 0; y := 0 |};
     brokenVelocity := {| x := 0; y := 0 |};
     trajectoryPoints := [];
     maxTrajectoryPoints := 200;
     trajectoryCounter := 0 |}.

Definition set_angle (v : float) (m : CircularMotionSimulationModel)
  : CircularMotionSimulationModel :=
  mkModel v (mass m) (angularVelocity m) (maxTension m) (radius m)
    (centerPosition m) (rotationDirection m) (state m) (brokenPosition m)
    (brokenVelocity m) (trajectoryPoints m) (maxTrajectoryPoints m)
    (trajectoryCounter m).

Definition set_mass (v : float) (m : CircularMotionSimulationModel)
  : CircularMotionSimulationModel :=
  mkModel (angle m) v (angularVelocity m) (maxTension m) (radius m)
    (centerPosition m) (rotationDirection m) (state m) (brokenPosition m)
    (brokenVelocity m) (trajectoryPoints m) (maxTrajectoryPoints m)
    (trajectoryCounter m).

Definition set_angularVelocity (v : float) (m : CircularMotionSimulationModel)
  : CircularMotionSimulationModel :=
  mkModel (angle m) (mass m) v (maxTension m) (radius m)
    (centerPosition m) (rotationDirection m) (state m) (brokenPosition m)
    (brokenVelocity m) (trajectoryPoints m) (maxTrajectoryPoints m)
    (trajectoryCounter m).

Definition set_maxTension (v : float) (m : CircularMotionSimulationModel)
  : CircularMotionSimulationModel :=
  mkModel (angle m) (mass m) (angularVelocity m) v (radius m)
    (centerPosition m) (rotationDirection m) (state m) (brokenPosition m)
    (brokenVelocity m) (trajectoryPoints m) (maxTrajectoryPoints m)
    (trajectoryCounter m).

Definition set_radius (v : float) (m : CircularMotionSimulationModel)
  : CircularMotionSimulationModel :=
  mkModel (angle m) (mass m) (angularVelocity m) (maxTension m) v
    (centerPosition m) (rotationDirection m) (state m) (brokenPosition m)
    (brokenVelocity m) (trajectoryPoints m) (maxTrajectoryPoints m)
    (trajectoryCounter m).

Definition set_rotationDirection (v : RotationDirection)
    (m : CircularMotionSimulationModel) : CircularMotionSimulationModel :=
  mkModel (angle m) (mass m) (angularVelocity m) (maxTension m) (radius m)
    (centerPosition m) v (state m) (brokenPosition m)
    (brokenVelocity m) (trajectoryPoints m) (maxTrajectoryPoints m)
    (trajectoryCounter m).

Definition set_brokenPosition (v : Vector2) (m : CircularMotionSimulationModel)
  : CircularMotionSimulationModel :=
  mkModel (angle m) (mass m) (angularVelocity m) (maxTension m) (radius m)
    (centerPosition m) (rotationDirection m) (state m) v
    (brokenVelocity m) (trajectoryPoints m) (maxTrajectoryPoints m)
    (trajectoryCounter m).

(** [get centripetalForce]: three multiplications, each rounded. *)
Definition centripetalForce (m : CircularMotionSimulationModel) : float :=
  mass m * angularVelocity m * angularVelocity m * radius m.

Definition linearVelocity (m : CircularMotionSimulationModel) : float :=
  angularVelocity m * radius m.

Definition directionMultiplier (d : RotationDirection) : float :=
  match d with
  | CLOCKWISE => 1
  | COUNTERCLOCKWISE => - (1)
  end.

Section Trigonometry.

Variables cos sin : float -> float.

Definition getBlockPosition (m : CircularMotionSimulationModel) : Vector2 :=
  match state m with
  | NORMAL_CIRCULAR_MOTION =>
      let radiusPixels := radius m * pixelsPerMeter in
      {| x := x (centerPosition m) + radiusPixels * cos (angle m);
         y := y (centerPosition m) + radiusPixels * sin (angle m) * squash |}
  | ROPE_BROKEN => brokenPosition m
  end.

Definition getCurrentVelocity (m : CircularMotionSimulationModel) : Vector2 :=
  let tangentAngle := angle m + PI / 2 in
  let velocity := linearVelocity m in
  {| x := velocity * cos tangentAngle;
     y := velocity * sin tangentAngle |}.

Definition breakRope (m : CircularMotionSimulationModel)
  : CircularMotionSimulationModel :=
  let currentPosition := getBlockPosition m in
  let currentVelocity := getCurrentVelocity m in
  mkModel (angle m) (mass m) (angularVelocity m) (maxTension m) (radius m)
    (centerPosition m) (rotationDirection m) ROPE_BROKEN currentPosition
    currentVelocity (trajectoryPoints m) (maxTrajectoryPoints m)
    (trajectoryCounter m).

Definition collectTrajectoryPoint (m : CircularMotionSimulationModel)
  : CircularMotionSimulationModel :=
  let counter := S (trajectoryCounter m) in
  if (trajectoryInterval <=? counter)%nat then
    let currentPos := getBlockPosition m in
    let pushed := trajectoryPoints m ++ [currentPos] in
    let kept :=
      if (maxTrajectoryPoints m <? length pushed)%nat
      then tl pushed else pushed in
    mkModel (angle m) (mass m) (angularVelocity m) (maxTension m) (radius m)
      (centerPosition m) (rotationDirection m) (state m) (brokenPosition m)
      (brokenVelocity m) kept (maxTrajectoryPoints m) 0%nat
  else
    mkModel (angle m) (mass m) (angularVelocity m) (maxTension m) (radius m)
      (centerPosition m) (rotationDirection m) (state m) (brokenPosition m)
      (brokenVelocity m) (trajectoryPoints m) (maxTrajectoryPoints m) counter.

Definition step (deltaTime : float) (m : CircularMotionSimulationModel)
  : CircularMotionSimulationModel :=
  match state m with
  | NORMAL_CIRCULAR_MOTION =>
      if eqb (angularVelocity m) 0 then m
      else
        collectTrajectoryPoint
          (if ltb (maxTension m) (centripetalForce m) then breakRope m
           else
             let a :=
               angle m
               + angularVelocity m * timeScale
                 * directionMultiplier (rotationDirection m) in
             if leb (2 * PI) a then set_angle (a - 2 * PI) m
             else if ltb a 0 then set_angle (a + 2 * PI) m
             else set_angle a m)
  | ROPE_BROKEN =>
      let velocityPixelsPerFrame :=
        {| x := x (brokenVelocity m) * pixelsPerMeter * timeScale;
           y := y (brokenVelocity m) * pixelsPerMeter * timeScale * squash |} in
      collectTrajectoryPoint
        (set_brokenPosition
           {| x := x (brokenPosition m) + x velocityPixelsPerFrame;
              y := y (brokenPosition m) + y velocityPixelsPerFrame |}
           m)
  end.

(** [n] consecutive frames, each calling [step 1]. *)
Fixpoint steps (n : nat) (m : CircularMotionSimulationModel)
  : CircularMotionSimulationModel :=
  match n with
  | O => m
  | S k => steps k (step 1 m)
  end.

End Trigonometry.

(** The four controls set on a fresh model. *)
Definition controlsModel (massValue angularVelocityValue radiusValue
                          maxTensionValue : float)
  : CircularMotionSimulationModel :=
  set_maxTension maxTensionValue
    (set_radius radiusValue
       (set_angularVelocity angularVelocityValue
          (set_mass massValue initialModel))).

(** The decimal control values used below, as the doubles that
    [parseFloat] returns for them. *)
#[warnings="-inexact-float"]
Definition d4_99 : float := 4.99.

#[warnings="-inexact-float"]
Definition d5_01 : float := 5.01.

#[warnings="-inexact-float"]
Definition d0_1 : float := 0.1.

#[warnings="-inexact-float"]
Definition d0_3 : float := 0.3.

#[warnings="-inexact-float"]
Definition d0_04 : float := 0.04.

#[warnings="-inexact-float"]
Definition d0_07 : float := 0.07.

Definition d7_5 : float := 7.5.

(** The rational number that a finite double is. *)
Definition toQ (f : float) : QArith_base.Q :=
  match FloatOps.Prim2SF f with
  | SpecFloat.S754_finite s m e =>
      QArith_base.Qmult
        (QArith_base.inject_Z (if s then Z.neg m else Z.pos m))
        (QArith_base.Qpower (QArith_base.Qmake 2 1) e)
  | _ => QArith_base.Qmake 0 1
  end.

(** The session of the wrap: angular velocity 0.07, three frames
    CLOCKWISE, the direction control switched, three frames
    COUNTERCLOCKWISE. *)
Definition thereAndBack (cos sin : float -> float)
  : CircularMotionSimulationModel :=
  steps cos sin 3
    (set_rotationDirection COUNTERCLOCKWISE
       (steps cos sin 3 (set_angularVelocity d0_07 initialModel))).

End Binary64.

(** ** Auxiliary notions and the models used as examples *)

(** The wrap applied to the advanced angle. *)
Definition wrapAngle (a : R) : R :=
  if Rge_dec a (2 * PI) then a - 2 * PI
  else if Rlt_dec a 0 then a + 2 * PI
  else a.

(** The model of the threshold test: mass 2, radius 1, maxTension 50. *)
Definition thresholdModel (w : R) : Model :=
  set_angularVelocity w
    (set_maxTension 50 (set_radius 1 (set_mass 2 initialModel))).

(** What [push] followed by the bounded [shift] leaves in the buffer. *)
Definition pushBounded (cap : nat) (pts : list Vector2) (p : Vector2)
  : list Vector2 :=
  if (cap <? length (pts ++ [p]))%nat then tl (pts ++ [p]) else pts ++ [p].

(** A step samples unless the body is at rest on an intact rope. *)
Definition sampling (m : Model) : Prop :=
  state m = ROPE_BROKEN \/ angularVelocity m <> 0.

(** The initial model with the angular-velocity control set to zero. *)
Definition restingModel : Model := set_angularVelocity 0 initialModel.

(** The heaviest mass at the fastest angular velocity the controls allow,
    on the default rope: the force is 40 N against a limit of 5 N. *)
Definition breakingModel (d : RotationDirection) : Model :=
  set_rotationDirection d
    (set_angularVelocity 2 (set_mass 10 initialModel)).

(** The same body on a rope that holds (limit 50 N). *)
Definition orbitingModel (d : RotationDirection) : Model :=
  set_maxTension 50 (breakingModel d).

(** A broken model, and a frame sequence during which the controls are
    moved and the trajectory is cleared. *)
Definition brokenModel : Model := set_state ROPE_BROKEN initialModel.

Definition editsWithoutReset : list Call :=
  [CallStep 1; AssignAngularVelocity 0; CallStep 1; AssignMass 0.01;
   AssignMaxTension 10; CallClearTrajectory; CallStep 1].

(** The angular-velocity control ranges over [[0, 2]]. *)
Definition withinControlRange (c : Call) : Prop :=
  match c with
  | AssignAngularVelocity v => 0 <= v <= 2
  | _ => True
  end.

Definition angleWrapped (m : Model) : Prop :=
  0 <= angle m < 2 * PI /\ 0 <= angularVelocity m <= 2.

(** A session that reverses the rotation, which makes the first
    COUNTERCLOCKWISE step wrap below zero. *)
Definition reversingSession : list Call :=
  [CallStep 1; AssignRotationDirection COUNTERCLOCKWISE;
   AssignAngularVelocity 2; CallStep 1; CallStep 1].

Definition withinCapacity (m : Model) : Prop :=
  (length (trajectoryPoints m) <= maxTrajectoryPoints m)%nat.

(** A body flying off at 2 m/s along the x axis from (400, 220). *)
Definition flyingModel : Model :=
  set_brokenVelocity {| x := 2; y := 0 |}
    (set_brokenPosition {| x := 400; y := 220 |} brokenModel).

(** The heaviest body at the fastest rotation, on a rope of length 0. *)
Definition pointModel : Model := set_radius 0 (breakingModel CLOCKWISE).

(** 602 frames of a fresh page: the buffer is full and the counter is 2,
    so the next frame samples. *)
Definition fullSession : list Call := repeat (CallStep 1) 602.

(** ** The scene of the simulation page

    The render methods draw on a canvas; what is embedded is what they
    decide and compute before drawing: whether the node draws, and the
    numbers it draws with.  [Math.max] and [Math.min] are [Rmax] and
    [Rmin]. *)

(** [LinearVelocityArrowNode.render]: the arrow length, the same
    expression in the NORMAL and in the BROKEN branch. *)
Definition velocityMagnitude (m : Model) : R :=
  Rmax 30 (Rmin (linearVelocity m * 50) 80).

(** [CentripetalAccelerationArrowNode.render]: the arrow length. *)
Definition accelerationMagnitude (m : Model) : R :=
  Rmax 30 (Rmin (centripetalForce m / mass m * 20) 70).

(** [TrajectoryNode.render]: the arguments [(x, y, radiusX, radiusY)] of
    the [context.ellipse] call, or [None] when nothing is drawn. *)
Definition TrajectoryNode_ellipse (visible : bool) (m : Model)
  : option (R * R * R * R) :=
  if negb visible then None
  else
    match state m with
    | NORMAL_CIRCULAR_MOTION =>
        Some (x (centerPosition m), y (centerPosition m),
              radius m, radius m * 0.3)
    | ROPE_BROKEN => None
    end.

(** The points of the path that [context.ellipse] traces with rotation 0
    from angle 0 to [2 * PI]. *)
Definition onEllipse (e : R * R * R * R) (p : Vector2) : Prop :=
  let '(cx, cy, rx, ry) := e in
  exists t : R, x p = cx + rx * cos t /\ y p = cy + ry * sin t.

(** [TrajectoryPathNode.render]: the polyline drawn through the sampled
    points, or [None] when the node returns before drawing. *)
Definition TrajectoryPathNode_polyline (visible : bool) (m : Model)
  : option (list Vector2) :=
  if (negb visible || (length (trajectoryPoints m) <? 2)%nat)%bool then None
  else Some (trajectoryPoints m).

(** ** The parameter panel of the simulation page *)

(** The effect that copies the five React state values into the model. *)
Definition syncParameters
    (massValue angularVelocityValue maxTensionValue radiusValue : R)
    (rotationDirectionValue : RotationDirection) (m : Model) : Model :=
  set_rotationDirection rotationDirectionValue
    (set_radius radiusValue
       (set_maxTension maxTensionValue
          (set_angularVelocity angularVelocityValue
             (set_mass massValue m)))).

(** [handleReset], once the effect has copied the restored values:
    [reset] on the model, then the five [INITIAL_VALUES]. *)
Definition handleReset (m : Model) : Model :=
  syncParameters 1 0.5 5 1.0 CLOCKWISE (reset m).

(** The number of [step] calls in a session. *)
Fixpoint countSteps (calls : list Call) : nat :=
  match calls with
  | [] => 0%nat
  | CallStep _ :: rest => S (countSteps rest)
  | _ :: rest => countSteps rest
  end.

(** The point reached after [j] frames of free flight from the broken
    position of [m]. *)
Definition flightPoint (m : Model) (j : nat) : Vector2 :=
  {| x := x (brokenPosition m)
          + INR j * (x (brokenVelocity m) * pixelsPerMeter * timeScale);
     y := y (brokenPosition m)
          + INR j * (y (brokenVelocity m) * pixelsPerMeter * timeScale * 0.3) |}.

(** ** The landing page (src/pages/PhETHomePage.tsx) *)
Module PhETHome.

Record CircularMotionModel : Type := mkModel {
  angle : R;
  angularVelocity : R;
  radius : R;
  centerPosition : Vector2;
  showForceAnalysis : bool
}.

Definition initialModel : CircularMotionModel :=
  {| angle := 0;
     angularVelocity := 0.05;
     radius := 70;
     centerPosition := {| x := 300; y := 220 |};
     showForceAnalysis := false |}.

Definition set_angle (v : R) (m : CircularMotionModel) : CircularMotionModel :=
  mkModel v (angularVelocity m) (radius m) (centerPosition m)
    (showForceAnalysis m).

(** [step]: one subtraction of a full turn, and no test below zero. *)
Definition step (deltaTime : R) (m : CircularMotionModel)
  : CircularMotionModel :=
  let a := angle m + angularVelocity m in
  if Rge_dec a (2 * PI) then set_angle (a - 2 * PI) m else set_angle a m.

Definition getBlockPosition (m : CircularMotionModel) : Vector2 :=
  {| x := x (centerPosition m) + radius m * cos (angle m);
     y := y (centerPosition m) + radius m * sin (angle m) * 0.3 |}.

(** [getCentripetalForceDirection]: the normalised vector from the block
    to the centre, the zero vector when they coincide. *)
Definition getCentripetalForceDirection (m : CircularMotionModel) : Vector2 :=
  let blockPos := getBlockPosition m in
  let dx := x (centerPosition m) - x blockPos in
  let dy := y (centerPosition m) - y blockPos in
  let distance := sqrt (dx * dx + dy * dy) in
  if Rgt_dec distance 0
  then {| x := dx / distance; y := dy / distance |}
  else {| x := 0; y := 0 |}.

Fixpoint steps (n : nat) (m : CircularMotionModel) : CircularMotionModel :=
  match n with
  | O => m
  | S k => steps k (step 1 m)
  end.

End PhETHome.

(** ** The first home page (src/pages/HomePage.tsx)

    The animation closure keeps one local variable, [angle]. *)
Module Home.

Definition angularSpeed : R := 0.02.

(** The end of [animate]: the angle is advanced and put back to 0 (not
    reduced by a full turn) once it reaches [2 * PI]. *)
Definition updateAngle (angle : R) : R :=
  let a := angle + angularSpeed in
  if Rge_dec a (2 * PI) then 0 else a.

(** The angle after [n] frames, from the initial [angle = 0]. *)
Fixpoint angleAfter (n : nat) : R :=
  match n with
  | O => 0
  | S k => updateAngle (angleAfter k)
  end.

End Home.

(** ** The quiz page (new-circular-motion/src/pages/QuizPage.tsx)

    Of a question the scoring reads [id], [type], [correctAnswer] and
    [tolerance]; the texts shown to the user are left out. *)
Module Quiz.

Inductive Question : Type :=
| ChoiceQuestion (id : nat) (correctAnswer : nat)
| CalculationQuestion (id : nat) (correctAnswer : R) (tolerance : option R)
| OpenQuestion (id : nat).

(** What [userAnswers] holds under a key: the index stored by
    [handleChoiceAnswer], or the text stored by [handleCalculationAnswer]
    and [handleOpenAnswer]. *)
Inductive Answer : Type :=
| ChoiceIndex (index : nat)
| Text (value : String.string).

(** [userAnswers : Record<number, any>]; [None] is [undefined]. *)
Definition Answers : Type := nat -> option Answer.

Definition noAnswers : Answers := fun _ => None.

(** [{ ...prev, [questionId]: value }]. *)
Definition setAnswer (questionId : nat) (value : Answer) (prev : Answers)
  : Answers :=
  fun k => if (k =? questionId)%nat then Some value else prev k.

Definition handleChoiceAnswer (questionId choiceIndex : nat) : Answers -> Answers :=
  setAnswer questionId (ChoiceIndex choiceIndex).

Definition handleCalculationAnswer (questionId : nat) (value : String.string)
  : Answers -> Answers :=
  setAnswer questionId (Text value).

Definition handleOpenAnswer (questionId : nat) (value : String.string)
  : Answers -> Answers :=
  setAnswer questionId (Text value).

(** The question data of the page. *)
Definition questions : list Question :=
  [ ChoiceQuestion 1 2;
    ChoiceQuestion 2 1;
    ChoiceQuestion 3 2;
    CalculationQuestion 4 5.66 (Some 0.1);
    CalculationQuestion 5 (199 / 1000000000) (Some (5 / 1000000000));
    CalculationQuestion 6 8000 (Some 100);
    OpenQuestion 7 ].

(** [question.tolerance || 0.1]: an absent or zero tolerance is 0.1. *)
Definition toleranceOrDefault (tolerance : option R) : R :=
  match tolerance with
  | Some t => if Req_dec_T t 0 then 0.1 else t
  | None => 0.1
  end.

Section Scoring.

(** [parseFloat] on a text; [None] stands for NaN and for the infinities,
    on which the comparison of [calculateScore] is false. *)
Variable parseFloat : String.string -> option R.

(** [parseFloat(userAnswers[question.id])]. *)
Definition parsedAnswer (a : option Answer) : option R :=
  match a with
  | Some (Text s) => parseFloat s
  | Some (ChoiceIndex n) => Some (INR n)
  | None => None
  end.

(** The body of the [forEach] of [calculateScore]: whether the question
    increments [correct]. *)
Definition scores (userAnswers : Answers) (question : Question) : bool :=
  match question with
  | ChoiceQuestion id correctAnswer =>
      match userAnswers id with
      | Some (ChoiceIndex userAnswer) => (userAnswer =? correctAnswer)%nat
      | _ => false
      end
  | CalculationQuestion id correctAnswer tolerance =>
      match parsedAnswer (userAnswers id) with
      | Some userAnswer =>
          if Rle_dec (Rabs (userAnswer - correctAnswer))
               (toleranceOrDefault tolerance)
          then true else false
      | None => false
      end
  | OpenQuestion _ => false
  end.

(** [calculateScore], over any question list. *)
Definition calculateScore (qs : list Question) (userAnswers : Answers) : nat :=
  fold_left
    (fun correct question =>
       if scores userAnswers question then S correct else correct)
    qs 0%nat.

End Scoring.

(** [questions.filter(q => q.type === 'choice' || q.type === 'calculation').length]. *)
Definition totalChoiceAndCalc (qs : list Question) : nat :=
  length
    (filter
       (fun q => match q with OpenQuestion _ => false | _ => true end)
       qs).

Definition questionId (q : Question) : nat :=
  match q with
  | ChoiceQuestion id _ => id
  | CalculationQuestion id _ _ => id
  | OpenQuestion id => id
  end.

(** The navigation state of the page, over a list of [n] questions. *)
Record Navigation : Type := mkNavigation {
  currentQuestionIndex : nat;
  showResults : bool
}.

Definition nextQuestion (n : nat) (s : Navigation) : Navigation :=
  if (currentQuestionIndex s <? n - 1)%nat
  then mkNavigation (S (currentQuestionIndex s)) (showResults s)
  else mkNavigation (currentQuestionIndex s) true.

Definition prevQuestion (s : Navigation) : Navigation :=
  if (0 <? currentQuestionIndex s)%nat
  then mkNavigation (currentQuestionIndex s - 1) (showResults s)
  else s.

(** The restart button of the result view. *)
Definition restart (s : Navigation) : Navigation := mkNavigation 0 false.

(** [progress], in percent. *)
Definition progress (n : nat) (s : Navigation) : R :=
  INR (currentQuestionIndex s + 1) / INR n * 100.

(** The buttons: the question view renders the previous and next
    buttons, the result view (shown when [showResults]) the restart
    button only; a button that is not rendered cannot be clicked. *)
Inductive Click : Type := ClickNext | ClickPrev | ClickRestart.

Definition click (n : nat) (c : Click) (s : Navigation) : Navigation :=
  if showResults s then
    match c with
    | ClickRestart => restart s
    | _ => s
    end
  else
    match c with
    | ClickNext => nextQuestion n s
    | ClickPrev => prevQuestion s
    | ClickRestart => s
    end.

Fixpoint clicks (n : nat) (cs : list Click) (s : Navigation) : Navigation :=
  match cs with
  | [] => s
  | c :: rest => clicks n rest (click n c s)
  end.

End Quiz.

(** What the navigation keeps: an index inside the list, and results
    shown only at the last index. *)
Definition Quiz_navigation_ok (n : nat) (s : Quiz.Navigation) : Prop :=
  (Quiz.currentQuestionIndex s < n)%nat
  /\ (Quiz.showResults s = true -> Quiz.currentQuestionIndex s = (n - 1)%nat).

(** ** What the sampler leaves alone *)

Ltac collect_frame :=
  unfold collectTrajectoryPoint; cbv zeta;
  match goal with
  | |- context [if (trajectoryInterval <=? ?c)%nat then _ else _] =>
      destruct (trajectoryInterval <=? c)%nat
  end; reflexivity.

Section SamplerFrame.

Variable m : Model.

Lemma collect_state : state (collectTrajectoryPoint m) = state m.
Proof. collect_frame. Qed.

Lemma collect_angle : angle (collectTrajectoryPoint m) = angle m.
Proof. collect_frame. Qed.

Lemma collect_mass : mass (collectTrajectoryPoint m) = mass m.
Proof. collect_frame. Qed.

Lemma collect_angularVelocity :
  angularVelocity (collectTrajectoryPoint m) = angularVelocity m.
Proof. collect_frame. Qed.

Lemma collect_maxTension : maxTension (collectTrajectoryPoint m) = maxTension m.
Proof. collect_frame. Qed.

Lemma collect_radius : radius (collectTrajectoryPoint m) = radius m.
Proof. collect_frame. Qed.

Lemma collect_centerPosition :
  centerPosition (collectTrajectoryPoint m) = centerPosition m.
Proof. collect_frame. Qed.

Lemma collect_rotationDirection :
  rotationDirection (collectTrajectoryPoint m) = rotationDirection m.
Proof. collect_frame. Qed.

Lemma collect_brokenPosition :
  brokenPosition (collectTrajectoryPoint m) = brokenPosition m.
Proof. collect_frame. Qed.

Lemma collect_brokenVelocity :
  brokenVelocity (collectTrajectoryPoint m) = brokenVelocity m.
Proof. collect_frame. Qed.

Lemma collect_maxTrajectoryPoints :
  maxTrajectoryPoints (collectTrajectoryPoint m) = maxTrajectoryPoints m.
Proof. collect_frame. Qed.

End SamplerFrame.

Create Rewrite HintDb sampler_frame.
#[export] Hint Rewrite collect_state collect_angle collect_mass
  collect_angularVelocity collect_maxTension collect_radius
  collect_centerPosition collect_rotationDirection collect_brokenPosition
  collect_brokenVelocity collect_maxTrajectoryPoints : sampler_frame.

(** ** The three branches of [step] *)

Lemma step_at_rest (deltaTime : R) (m : Model) :
  state m = NORMAL_CIRCULAR_MOTION -> angularVelocity m = 0 ->
  step deltaTime m = m.
Proof.
  intros Hs Hw. unfold step. rewrite Hs.
  destruct (Req_dec_T (angularVelocity m) 0); [reflexivity | contradiction].
Qed.

Lemma step_break (deltaTime : R) (m : Model) :
  state m = NORMAL_CIRCULAR_MOTION -> angularVelocity m <> 0 ->
  centripetalForce m > maxTension m ->
  step deltaTime m = collectTrajectoryPoint (breakRope m).
Proof.
  intros Hs Hw Hf. unfold step. rewrite Hs.
  destruct (Req_dec_T (angularVelocity m) 0); [contradiction |].
  destruct (Rgt_dec (centripetalForce m) (maxTension m)); [reflexivity | contradiction].
Qed.

Lemma step_rotate (deltaTime : R) (m : Model) :
  state m = NORMAL_CIRCULAR_MOTION -> angularVelocity m <> 0 ->
  ~ centripetalForce m > maxTension m ->
  step deltaTime m =
  collectTrajectoryPoint
    (set_angle
       (wrapAngle
          (angle m
           + angularVelocity m * timeScale
             * directionMultiplier (rotationDirection m)))
       m).
Proof.
  intros Hs Hw Hf. unfold step, wrapAngle. rewrite Hs.
  destruct (Req_dec_T (angularVelocity m) 0); [contradiction |].
  destruct (Rgt_dec (centripetalForce m) (maxTension m)); [contradiction |].
  cbv zeta.
  destruct (Rge_dec _ _); [reflexivity |].
  destruct (Rlt_dec _ _); reflexivity.
Qed.

Lemma step_broken (deltaTime : R) (m : Model) :
  state m = ROPE_BROKEN ->
  step deltaTime m =
  collectTrajectoryPoint
    (set_brokenPosition
       {| x := x (brokenPosition m)
               + x (brokenVelocity m) * pixelsPerMeter * timeScale;
          y := y (brokenPosition m)
               + y (brokenVelocity m) * pixelsPerMeter * timeScale * 0.3 |}
       m).
Proof. intros Hs. unfold step. rewrite Hs. reflexivity. Qed.

(** [deltaTime] is never read. *)
Lemma step_deltaTime (d1 d2 : R) (m : Model) : step d1 m = step d2 m.
Proof. reflexivity. Qed.

(** The state after one [step], case by case. *)
Lemma step_state (deltaTime : R) (m : Model) :
  state (step deltaTime m) =
  match state m with
  | NORMAL_CIRCULAR_MOTION =>
      if Req_dec_T (angularVelocity m) 0 then NORMAL_CIRCULAR_MOTION
      else if Rgt_dec (centripetalForce m) (maxTension m) then ROPE_BROKEN
      else NORMAL_CIRCULAR_MOTION
  | ROPE_BROKEN => ROPE_BROKEN
  end.
Proof.
  unfold step. destruct (state m) eqn:Hs.
  - destruct (Req_dec_T _ _); [assumption |].
    rewrite collect_state.
    destruct (Rgt_dec _ _); [reflexivity |].
    cbv zeta. destruct (Rge_dec _ _); [assumption |].
    destruct (Rlt_dec _ _); assumption.
  - rewrite collect_state. assumption.
Qed.

(** ** Break threshold *)

(** In exact arithmetic: in NORMAL state with a positive angular velocity,
    [step] breaks the rope exactly when [mass * angularVelocity^2 * radius]
    is strictly greater than [maxTension].  The program rounds the
    product, and at the limit its break test differs from this one: see
    [Binary64Facts]. *)
Theorem step_breaks_iff_force_exceeds_tension
    (deltaTime : R) (m : Model)
    (Hstate : state m = NORMAL_CIRCULAR_MOTION)
    (Hw : angularVelocity m > 0) :
  (state (step deltaTime m) = ROPE_BROKEN
   <-> mass m * (angularVelocity m) ^ 2 * radius m > maxTension m)
  /\ (state (step deltaTime m) <> ROPE_BROKEN
      -> state (step deltaTime m) = NORMAL_CIRCULAR_MOTION)
  /\ (mass m = 2 -> radius m = 1 -> maxTension m = 50 ->
      (angularVelocity m = 4.99 ->
       state (step deltaTime m) = NORMAL_CIRCULAR_MOTION)
      /\ (angularVelocity m = 5 ->
          state (step deltaTime m) = NORMAL_CIRCULAR_MOTION)
      /\ (angularVelocity m = 5.01 ->
          state (step deltaTime m) = ROPE_BROKEN)).
Proof.
  rewrite step_state, Hstate.
  destruct (Req_dec_T (angularVelocity m) 0) as [E | _]; [lra |].
  assert (Hforce : centripetalForce m
                   = mass m * (angularVelocity m) ^ 2 * radius m)
    by (unfold centripetalForce; ring).
  destruct (Rgt_dec (centripetalForce m) (maxTension m)) as [Hgt | Hle];
    rewrite Hforce in *.
  - split; [tauto |]. split; [tauto |].
    intros Hm Hr Ht. rewrite Hm, Hr, Ht in Hgt.
    repeat split; intros E; rewrite E in Hgt; try reflexivity; exfalso; lra.
  - split; [split; [discriminate | contradiction] |]. split; [tauto |].
    intros Hm Hr Ht. rewrite Hm, Hr, Ht in Hle.
    repeat split; intros E; rewrite E in Hle; try reflexivity; exfalso; lra.
Qed.

Lemma thresholdModel_moving (w : R) :
  w > 0 -> angularVelocity (thresholdModel w) > 0.
Proof. intros H. exact H. Qed.

Lemma step_breaks_iff_force_exceeds_tension_witness :
  state (step 1 (thresholdModel 4.99)) = NORMAL_CIRCULAR_MOTION
  /\ state (step 1 (thresholdModel 5)) = NORMAL_CIRCULAR_MOTION
  /\ state (step 1 (thresholdModel 5.01)) = ROPE_BROKEN.
Proof.
  split; [| split].
  - refine (proj1 (proj2 (proj2
      (step_breaks_iff_force_exceeds_tension 1 (thresholdModel 4.99)
         eq_refl (thresholdModel_moving _ _))) eq_refl eq_refl eq_refl) eq_refl).
    lra.
  - refine (proj1 (proj2 (proj2 (proj2
      (step_breaks_iff_force_exceeds_tension 1 (thresholdModel 5)
         eq_refl (thresholdModel_moving _ _))) eq_refl eq_refl eq_refl)) eq_refl).
    lra.
  - refine (proj2 (proj2 (proj2 (proj2
      (step_breaks_iff_force_exceeds_tension 1 (thresholdModel 5.01)
         eq_refl (thresholdModel_moving _ _))) eq_refl eq_refl eq_refl)) eq_refl).
    lra.
Defined.

(** ** What [step] leaves alone in every state *)

Ltac step_frame m :=
  unfold step; destruct (state m);
  [ destruct (Req_dec_T (angularVelocity m) 0); [reflexivity |];
    autorewrite with sampler_frame;
    destruct (Rgt_dec (centripetalForce m) (maxTension m)); [reflexivity |];
    cbv zeta;
    repeat match goal with
           | |- context [if ?c then _ else _] => destruct c
           end; reflexivity
  | autorewrite with sampler_frame; reflexivity ].

Section StepFrame.

Variables (deltaTime : R) (m : Model).

Lemma step_mass : mass (step deltaTime m) = mass m.
Proof. step_frame m. Qed.

Lemma step_angularVelocity :
  angularVelocity (step deltaTime m) = angularVelocity m.
Proof. step_frame m. Qed.

Lemma step_maxTension : maxTension (step deltaTime m) = maxTension m.
Proof. step_frame m. Qed.

Lemma step_radius : radius (step deltaTime m) = radius m.
Proof. step_frame m. Qed.

Lemma step_rotationDirection :
  rotationDirection (step deltaTime m) = rotationDirection m.
Proof. step_frame m. Qed.

Lemma step_centerPosition :
  centerPosition (step deltaTime m) = centerPosition m.
Proof. step_frame m. Qed.

Lemma step_maxTrajectoryPoints :
  maxTrajectoryPoints (step deltaTime m) = maxTrajectoryPoints m.
Proof. step_frame m. Qed.

End StepFrame.

(** ** The sampler *)

Lemma collect_trajectoryCounter (m : Model) :
  trajectoryCounter (collectTrajectoryPoint m) =
  if (trajectoryInterval <=? S (trajectoryCounter m))%nat
  then 0%nat else S (trajectoryCounter m).
Proof.
  unfold collectTrajectoryPoint; cbv zeta.
  change (trajectoryCounter (set_trajectoryCounter (S (trajectoryCounter m)) m))
    with (S (trajectoryCounter m)).
  destruct (trajectoryInterval <=? S (trajectoryCounter m))%nat; reflexivity.
Qed.

Lemma collect_trajectoryPoints (m : Model) :
  trajectoryPoints (collectTrajectoryPoint m) =
  if (trajectoryInterval <=? S (trajectoryCounter m))%nat
  then pushBounded (maxTrajectoryPoints m) (trajectoryPoints m)
         (getBlockPosition m)
  else trajectoryPoints m.
Proof.
  unfold collectTrajectoryPoint; cbv zeta.
  change (trajectoryCounter (set_trajectoryCounter (S (trajectoryCounter m)) m))
    with (S (trajectoryCounter m)).
  destruct (trajectoryInterval <=? S (trajectoryCounter m))%nat; reflexivity.
Qed.

Lemma collect_getBlockPosition (m : Model) :
  getBlockPosition (collectTrajectoryPoint m) = getBlockPosition m.
Proof.
  unfold getBlockPosition. autorewrite with sampler_frame. reflexivity.
Qed.

Lemma pushBounded_length (cap : nat) (pts : list Vector2) (p : Vector2) :
  length (pushBounded cap pts p) =
  if (cap <? S (length pts))%nat then length pts else S (length pts).
Proof.
  unfold pushBounded.
  assert (Hlen : length (pts ++ [p]) = S (length pts))
    by (rewrite length_app; simpl; lia).
  rewrite Hlen. destruct (cap <? S (length pts))%nat; [| exact Hlen].
  destruct pts as [| q pts']; simpl in *; lia.
Qed.

Lemma step_sampling (deltaTime : R) (m : Model) :
  sampling m -> sampling (step deltaTime m).
Proof.
  unfold sampling. intros [Hs | Hw].
  - left. rewrite step_state, Hs. reflexivity.
  - right. rewrite step_angularVelocity. exact Hw.
Qed.

(** A sampling step is the sampler run on the model whose position has
    been updated; the update keeps the buffer, its bound and the counter. *)
Lemma step_is_collect (deltaTime : R) (m : Model) :
  sampling m ->
  exists updated : Model,
    step deltaTime m = collectTrajectoryPoint updated
    /\ trajectoryPoints updated = trajectoryPoints m
    /\ trajectoryCounter updated = trajectoryCounter m
    /\ maxTrajectoryPoints updated = maxTrajectoryPoints m.
Proof.
  intros Hs. unfold step.
  destruct (state m) eqn:Hstate.
  - destruct Hs as [Hs | Hw]; [congruence |].
    destruct (Req_dec_T (angularVelocity m) 0); [contradiction |].
    eexists; split; [reflexivity |].
    destruct (Rgt_dec _ _); [repeat split |].
    cbv zeta. destruct (Rge_dec _ _); [repeat split |].
    destruct (Rlt_dec _ _); repeat split.
  - eexists; split; [reflexivity | repeat split].
Qed.

Lemma step_trajectoryCounter (deltaTime : R) (m : Model) :
  sampling m ->
  trajectoryCounter (step deltaTime m) =
  if (trajectoryInterval <=? S (trajectoryCounter m))%nat
  then 0%nat else S (trajectoryCounter m).
Proof.
  intros Hs. destruct (step_is_collect deltaTime m Hs) as (u & E & _ & Hc & _).
  rewrite E, collect_trajectoryCounter, Hc. reflexivity.
Qed.

Lemma step_trajectoryPoints (deltaTime : R) (m : Model) :
  sampling m ->
  trajectoryPoints (step deltaTime m) =
  if (trajectoryInterval <=? S (trajectoryCounter m))%nat
  then pushBounded (maxTrajectoryPoints m) (trajectoryPoints m)
         (getBlockPosition (step deltaTime m))
  else trajectoryPoints m.
Proof.
  intros Hs. destruct (step_is_collect deltaTime m Hs) as (u & E & Hp & Hc & Hm).
  rewrite E, collect_trajectoryPoints, collect_getBlockPosition, Hp, Hc, Hm.
  reflexivity.
Qed.

(** Three sampling steps from a counter at zero append one point. *)
Lemma three_steps_one_point (m : Model) :
  sampling m -> trajectoryCounter m = 0%nat ->
  (length (trajectoryPoints m) < maxTrajectoryPoints m)%nat ->
  trajectoryCounter (steps 3 m) = 0%nat
  /\ length (trajectoryPoints (steps 3 m)) = S (length (trajectoryPoints m))
  /\ maxTrajectoryPoints (steps 3 m) = maxTrajectoryPoints m
  /\ sampling (steps 3 m).
Proof.
  intros Hs Hc Hlen. simpl.
  pose proof (step_sampling 1 m Hs) as Hs1.
  pose proof (step_sampling 1 _ Hs1) as Hs2.
  pose proof (step_sampling 1 _ Hs2) as Hs3.
  assert (C1 : trajectoryCounter (step 1 m) = 1%nat)
    by (rewrite step_trajectoryCounter, Hc by assumption; reflexivity).
  assert (P1 : trajectoryPoints (step 1 m) = trajectoryPoints m)
    by (rewrite step_trajectoryPoints, Hc by assumption; reflexivity).
  assert (C2 : trajectoryCounter (step 1 (step 1 m)) = 2%nat)
    by (rewrite step_trajectoryCounter, C1 by assumption; reflexivity).
  assert (P2 : trajectoryPoints (step 1 (step 1 m)) = trajectoryPoints m)
    by (rewrite step_trajectoryPoints, C1 by assumption; exact P1).
  repeat split; try assumption.
  - rewrite step_trajectoryCounter, C2 by assumption; reflexivity.
  - rewrite step_trajectoryPoints, C2 by assumption.
    change (trajectoryInterval <=? 3)%nat with true. cbv iota.
    rewrite pushBounded_length, P2, !step_maxTrajectoryPoints.
    destruct (Nat.ltb_spec (maxTrajectoryPoints m)
                (S (length (trajectoryPoints m)))); lia.
  - rewrite !step_maxTrajectoryPoints. reflexivity.
Qed.

Lemma steps_add (a b : nat) (m : Model) :
  steps (a + b) m = steps b (steps a m).
Proof.
  revert m. induction a as [| a IH]; intros m; simpl; [reflexivity | apply IH].
Qed.

Lemma steps_one_point_per_interval (k : nat) :
  forall m : Model,
    sampling m -> trajectoryCounter m = 0%nat ->
    (length (trajectoryPoints m) + k <= maxTrajectoryPoints m)%nat ->
    trajectoryCounter (steps (3 * k) m) = 0%nat
    /\ length (trajectoryPoints (steps (3 * k) m))
       = (length (trajectoryPoints m) + k)%nat.
Proof.
  induction k as [| k IH]; intros m Hs Hc Hlen.
  - simpl. split; [assumption | lia].
  - replace (3 * S k)%nat with (3 + 3 * k)%nat by lia.
    rewrite steps_add.
    destruct (three_steps_one_point m Hs Hc) as (C & L & M & S3); [lia |].
    destruct (IH (steps 3 m) S3 C) as [C' L']; [rewrite L, M; lia |].
    split; [exact C' | rewrite L', L; lia].
Qed.

(** ** Sampling on every step? *)

Lemma steps_at_rest (n : nat) (m : Model) :
  state m = NORMAL_CIRCULAR_MOTION -> angularVelocity m = 0 ->
  steps n m = m.
Proof.
  intros Hs Hw. induction n as [| n IH]; simpl; [reflexivity |].
  rewrite (step_at_rest 1 m Hs Hw). exact IH.
Qed.

(** C3, as stated, fails: with the body at rest on an intact rope a step
    is not the sampler (the counter stays at 0 where the sampler would
    make it 1), and 30 steps append no point at all. *)
Lemma step_at_rest_does_not_sample :
  state restingModel = NORMAL_CIRCULAR_MOTION
  /\ angularVelocity restingModel = 0
  /\ trajectoryCounter restingModel = 0%nat
  /\ step 1 restingModel = restingModel
  /\ trajectoryCounter (collectTrajectoryPoint restingModel) = 1%nat
  /\ step 1 restingModel <> collectTrajectoryPoint restingModel
  /\ length (trajectoryPoints (steps 30 restingModel)) = 0%nat
  /\ length (trajectoryPoints (steps 30 restingModel)) <> 10%nat.
Proof.
  assert (Hstep : step 1 restingModel = restingModel)
    by (apply step_at_rest; reflexivity).
  assert (Hsteps : steps 30 restingModel = restingModel)
    by (apply steps_at_rest; reflexivity).
  repeat split; try assumption.
  - rewrite Hstep. intros E.
    apply (f_equal trajectoryCounter) in E. discriminate E.
  - rewrite Hsteps. reflexivity.
  - rewrite Hsteps. discriminate.
Qed.

(** C3, amended: a step taken with the rope broken, or with a nonzero
    angular velocity, runs the sampler after the position update (the
    counter advances, and on every third step the updated position is
    appended and the counter returns to 0); a step taken at rest on an
    intact rope changes nothing and does not sample.  Hence, from a counter
    at 0 and while the buffer stays within capacity, [3 * k] sampling steps
    append exactly [k] points, 10 points for 30 steps. *)
Theorem step_samples_unless_at_rest (deltaTime : R) (m : Model) :
  (state m = NORMAL_CIRCULAR_MOTION -> angularVelocity m = 0 ->
   step deltaTime m = m)
  /\ (state m = ROPE_BROKEN \/ angularVelocity m <> 0 ->
      trajectoryCounter (step deltaTime m)
      = (if (trajectoryInterval <=? S (trajectoryCounter m))%nat
         then 0%nat else S (trajectoryCounter m))
      /\ trajectoryPoints (step deltaTime m)
         = (if (trajectoryInterval <=? S (trajectoryCounter m))%nat
            then pushBounded (maxTrajectoryPoints m) (trajectoryPoints m)
                   (getBlockPosition (step deltaTime m))
            else trajectoryPoints m))
  /\ (state m = ROPE_BROKEN \/ angularVelocity m <> 0 ->
      trajectoryCounter m = 0%nat ->
      forall k : nat,
        (length (trajectoryPoints m) + k <= maxTrajectoryPoints m)%nat ->
        length (trajectoryPoints (steps (3 * k) m))
        = (length (trajectoryPoints m) + k)%nat)
  /\ (state m = ROPE_BROKEN \/ angularVelocity m <> 0 ->
      trajectoryCounter m = 0%nat ->
      (length (trajectoryPoints m) + 10 <= maxTrajectoryPoints m)%nat ->
      length (trajectoryPoints (steps 30 m))
      = (length (trajectoryPoints m) + 10)%nat).
Proof.
  split; [apply step_at_rest |].
  split; [intros Hs; split;
          [apply step_trajectoryCounter | apply step_trajectoryPoints];
          exact Hs |].
  split.
  - intros Hs Hc k Hk.
    apply (steps_one_point_per_interval k m Hs Hc Hk).
  - intros Hs Hc Hk.
    apply (steps_one_point_per_interval 10 m Hs Hc Hk).
Qed.

Lemma initialModel_moving : angularVelocity initialModel <> 0.
Proof. simpl. lra. Qed.

Lemma step_samples_unless_at_rest_witness :
  length (trajectoryPoints (steps 30 initialModel)) = 10%nat.
Proof.
  refine (proj2 (proj2 (proj2
    (step_samples_unless_at_rest 1 initialModel)))
    (or_intror initialModel_moving) eq_refl _).
  simpl. lia.
Defined.

(** ** The snapshot taken when the rope breaks *)

Lemma getCurrentVelocity_rotationDirection (d : RotationDirection) (m : Model) :
  getCurrentVelocity (set_rotationDirection d m) = getCurrentVelocity m.
Proof. reflexivity. Qed.

(** What the breaking step stores: the angle is kept, the position is the
    one on the orbit, and the velocity is [getCurrentVelocity], of squared
    length [linearVelocity ^ 2] and along [angle + PI / 2]. *)
Lemma step_break_snapshot (deltaTime : R) (m : Model) :
  state m = NORMAL_CIRCULAR_MOTION -> angularVelocity m <> 0 ->
  centripetalForce m > maxTension m ->
  state (step deltaTime m) = ROPE_BROKEN
  /\ angle (step deltaTime m) = angle m
  /\ brokenPosition (step deltaTime m) = getBlockPosition m
  /\ brokenVelocity (step deltaTime m)
     = {| x := linearVelocity m * cos (angle m + PI / 2);
          y := linearVelocity m * sin (angle m + PI / 2) |}
  /\ (x (brokenVelocity (step deltaTime m))) ^ 2
     + (y (brokenVelocity (step deltaTime m))) ^ 2
     = (linearVelocity m) ^ 2.
Proof.
  intros Hs Hw Hf. rewrite (step_break deltaTime m Hs Hw Hf).
  autorewrite with sampler_frame. repeat split.
  simpl.
  pose proof (sin2_cos2 (angle m + PI / 2)) as Hunit.
  unfold Rsqr in Hunit.
  transitivity
    ((linearVelocity m) ^ 2
     * (sin (angle m + PI / 2) * sin (angle m + PI / 2)
        + cos (angle m + PI / 2) * cos (angle m + PI / 2)));
    [ring | rewrite Hunit; ring].
Qed.

(** C2: at the break the velocity stored for a COUNTERCLOCKWISE rotation
    is the one stored for a CLOCKWISE rotation, [(0, 2)] at angle 0,
    although the two rotations advance the angle in opposite senses and
    the velocity arrow of the COUNTERCLOCKWISE body points along
    [(0, -1)]. *)
Theorem break_velocity_ignores_rotationDirection :
  (forall d : RotationDirection,
      state (breakingModel d) = NORMAL_CIRCULAR_MOTION
      /\ centripetalForce (breakingModel d) > maxTension (breakingModel d)
      /\ state (step 1 (breakingModel d)) = ROPE_BROKEN
      /\ angle (step 1 (breakingModel d)) = 0
      /\ brokenVelocity (step 1 (breakingModel d)) = {| x := 0; y := 2 |})
  /\ (cos (arrowTangentAngle (breakingModel COUNTERCLOCKWISE)) = 0
      /\ sin (arrowTangentAngle (breakingModel COUNTERCLOCKWISE)) = -1)
  /\ angle (step 1 (orbitingModel CLOCKWISE)) = 0.032
  /\ angle (step 1 (orbitingModel COUNTERCLOCKWISE)) = 2 * PI - 0.032.
Proof.
  split; [intros d | split; [| split]].
  2: { unfold arrowTangentAngle. simpl.
       replace (0 + PI / 2 * -1) with (- (PI / 2)) by lra.
       rewrite cos_neg, sin_neg, cos_PI2, sin_PI2. split; lra. }
  - assert (Hs : state (breakingModel d) = NORMAL_CIRCULAR_MOTION)
      by reflexivity.
    assert (Hw : angularVelocity (breakingModel d) <> 0) by (simpl; lra).
    assert (Hf : centripetalForce (breakingModel d)
                 > maxTension (breakingModel d))
      by (unfold centripetalForce; simpl; lra).
    destruct (step_break_snapshot 1 _ Hs Hw Hf) as (B & A & _ & V & _).
    repeat split; try assumption.
    rewrite V. unfold linearVelocity. simpl.
    rewrite Rplus_0_l, cos_PI2, sin_PI2. f_equal; lra.
  - rewrite step_rotate; try reflexivity.
    + rewrite collect_angle. unfold wrapAngle, timeScale; simpl.
      pose proof PI2_1.
      destruct (Rge_dec _ _); [lra |].
      destruct (Rlt_dec _ _); lra.
    + simpl; lra.
    + unfold centripetalForce; simpl; lra.
  - rewrite step_rotate; try reflexivity.
    + rewrite collect_angle. unfold wrapAngle, timeScale; simpl.
      pose proof PI2_1.
      destruct (Rge_dec _ _); [lra |].
      destruct (Rlt_dec _ _); lra.
    + simpl; lra.
    + unfold centripetalForce; simpl; lra.
Qed.

(** ** BROKEN is left only by [reset] *)

Lemma exec_keeps_broken (c : Call) (m : Model) :
  c <> CallReset -> state m = ROPE_BROKEN -> state (exec c m) = ROPE_BROKEN.
Proof.
  intros Hc Hb. destruct c; simpl; try assumption.
  - rewrite step_state, Hb. reflexivity.
  - contradiction.
Qed.

Lemma run_broken_or_reset (calls : list Call) :
  forall m : Model,
    state m = ROPE_BROKEN ->
    state (run calls m) = ROPE_BROKEN \/ In CallReset calls.
Proof.
  induction calls as [| c rest IH]; intros m Hb; simpl.
  - left. exact Hb.
  - assert (Hc : c = CallReset \/ c <> CallReset)
      by (destruct c; (left; reflexivity) || (right; discriminate)).
    destruct Hc as [Hc | Hc]; [right; left; exact Hc |].
    destruct (IH _ (exec_keeps_broken c m Hc Hb)) as [H | H];
      [left; exact H | right; right; exact H].
Qed.

Lemma not_in_firstn (k : nat) (calls : list Call) :
  ~ In CallReset calls -> ~ In CallReset (firstn k calls).
Proof.
  revert calls. induction k as [| k IH]; intros [| c rest] Hn; simpl; auto.
  intros [E | Hin].
  - apply Hn. left. exact E.
  - apply (IH rest); [| exact Hin]. intros H. apply Hn. right. exact H.
Qed.

(** C4: from a BROKEN model, whatever steps, trajectory clearings and
    parameter assignments follow, the state is BROKEN after each of them
    as long as [reset] is not called; a NORMAL state can only be seen
    after a [reset], and [reset] does give NORMAL. *)
Theorem broken_until_reset (m : Model) (calls : list Call)
    (Hbroken : state m = ROPE_BROKEN) :
  (~ In CallReset calls ->
   forall k : nat, state (run (firstn k calls) m) = ROPE_BROKEN)
  /\ (state (run calls m) = NORMAL_CIRCULAR_MOTION -> In CallReset calls)
  /\ state (reset (run calls m)) = NORMAL_CIRCULAR_MOTION.
Proof.
  split; [| split].
  - intros Hn k.
    destruct (run_broken_or_reset (firstn k calls) m Hbroken) as [H | H];
      [exact H | exfalso; exact (not_in_firstn k calls Hn H)].
  - intros Hnormal.
    destruct (run_broken_or_reset calls m Hbroken) as [H | H];
      [congruence | exact H].
  - reflexivity.
Qed.

Lemma editsWithoutReset_no_reset : ~ In CallReset editsWithoutReset.
Proof.
  unfold editsWithoutReset. simpl.
  intros H; repeat (destruct H as [H | H]; [discriminate H |]); exact H.
Qed.

Lemma broken_until_reset_witness :
  state (run editsWithoutReset brokenModel) = ROPE_BROKEN.
Proof.
  exact (proj1 (broken_until_reset brokenModel editsWithoutReset eq_refl)
           editsWithoutReset_no_reset 7%nat).
Defined.

(** ** The angle stays in [[0, 2 * PI)] *)

Lemma wrapAngle_range (a : R) :
  - (2 * PI) <= a < 4 * PI -> 0 <= wrapAngle a < 2 * PI.
Proof.
  intros Ha. unfold wrapAngle.
  destruct (Rge_dec a (2 * PI)); [lra |].
  destruct (Rlt_dec a 0); lra.
Qed.

Lemma step_angle (deltaTime : R) (m : Model) :
  angle (step deltaTime m) =
  match state m with
  | NORMAL_CIRCULAR_MOTION =>
      if Req_dec_T (angularVelocity m) 0 then angle m
      else if Rgt_dec (centripetalForce m) (maxTension m) then angle m
      else wrapAngle
             (angle m
              + angularVelocity m * timeScale
                * directionMultiplier (rotationDirection m))
  | ROPE_BROKEN => angle m
  end.
Proof.
  destruct (state m) eqn:Hs.
  - destruct (Req_dec_T (angularVelocity m) 0) as [E | N].
    + rewrite (step_at_rest _ _ Hs E). reflexivity.
    + destruct (Rgt_dec (centripetalForce m) (maxTension m)) as [G | L].
      * rewrite (step_break _ _ Hs N G), collect_angle. reflexivity.
      * rewrite (step_rotate _ _ Hs N L), collect_angle. reflexivity.
  - rewrite (step_broken _ _ Hs), collect_angle. reflexivity.
Qed.

Lemma step_angleWrapped (deltaTime : R) (m : Model) :
  angleWrapped m -> angleWrapped (step deltaTime m).
Proof.
  intros [Ha Hw]. unfold angleWrapped.
  rewrite step_angularVelocity. split; [| exact Hw].
  rewrite step_angle.
  destruct (state m); [| exact Ha].
  destruct (Req_dec_T _ _); [exact Ha |].
  destruct (Rgt_dec _ _); [exact Ha |].
  apply wrapAngle_range. pose proof PI2_1 as Hpi.
  unfold timeScale.
  destruct (rotationDirection m); simpl; lra.
Qed.

Lemma exec_angleWrapped (c : Call) (m : Model) :
  withinControlRange c -> angleWrapped m -> angleWrapped (exec c m).
Proof.
  intros Hc Hm. destruct c; simpl in *; try exact Hm.
  - apply step_angleWrapped. exact Hm.
  - destruct Hm as [_ Hw]. split; simpl; [pose proof PI2_1; lra | exact Hw].
  - destruct Hm as [Ha _]. split; simpl; [exact Ha | exact Hc].
Qed.

Lemma run_angleWrapped (calls : list Call) :
  forall m : Model,
    Forall withinControlRange calls -> angleWrapped m ->
    angleWrapped (run calls m).
Proof.
  induction calls as [| c rest IH]; intros m Hall Hm; simpl; [exact Hm |].
  inversion Hall as [| ? ? Hc Hrest]; subst.
  apply IH; [exact Hrest | apply exec_angleWrapped; assumption].
Qed.

Lemma withinControlRange_firstn (k : nat) (calls : list Call) :
  Forall withinControlRange calls ->
  Forall withinControlRange (firstn k calls).
Proof.
  intros Hall. revert k.
  induction Hall as [| c rest Hc _ IH]; intros [| k]; simpl;
    constructor; auto.
Qed.

Lemma initialModel_angleWrapped : angleWrapped initialModel.
Proof. split; simpl; pose proof PI2_1; lra. Qed.

(** In exact arithmetic: from the initial model, as long as every value
    assigned to [angularVelocity] lies in [[0, 2]] (the other fields being
    assigned freely), the angle lies in [[0, 2 * PI)] after every call.
    The program's addition of [2 * Math.PI] rounds, and can store
    [2 * Math.PI] itself: see [Binary64Facts]. *)
Theorem angle_stays_wrapped (calls : list Call)
    (Hrange : Forall withinControlRange calls) :
  forall k : nat,
    0 <= angle (run (firstn k calls) initialModel) < 2 * PI.
Proof.
  intros k.
  apply (run_angleWrapped (firstn k calls) initialModel).
  - apply withinControlRange_firstn. exact Hrange.
  - exact initialModel_angleWrapped.
Qed.

Lemma reversingSession_in_range : Forall withinControlRange reversingSession.
Proof. unfold reversingSession. repeat constructor; simpl; lra. Qed.

Lemma angle_stays_wrapped_witness :
  0 <= angle (run reversingSession initialModel) < 2 * PI.
Proof.
  exact (angle_stays_wrapped reversingSession reversingSession_in_range 5%nat).
Defined.

(** The session does wrap: 0.008 after the first frame, then twice 0.032
    backwards through zero. *)
Lemma reversingSession_angle :
  angle (run reversingSession initialModel) = 2 * PI - 0.056.
Proof.
  pose proof PI2_1 as Hpi.
  assert (H1 : step 1 initialModel
               = collectTrajectoryPoint (set_angle 0.008 initialModel)).
  { rewrite step_rotate; try reflexivity.
    - f_equal. f_equal. unfold wrapAngle, timeScale; simpl.
      destruct (Rge_dec _ _); [lra |]. destruct (Rlt_dec _ _); lra.
    - simpl; lra.
    - unfold centripetalForce; simpl; lra. }
  unfold reversingSession; simpl. rewrite H1.
  set (m1 := set_angularVelocity 2
               (set_rotationDirection COUNTERCLOCKWISE
                  (collectTrajectoryPoint (set_angle 0.008 initialModel)))).
  assert (F1 : state m1 = NORMAL_CIRCULAR_MOTION
               /\ angularVelocity m1 = 2 /\ mass m1 = 1 /\ radius m1 = 1
               /\ maxTension m1 = 5 /\ angle m1 = 0.008
               /\ rotationDirection m1 = COUNTERCLOCKWISE).
  { unfold m1; simpl. autorewrite with sampler_frame. simpl.
    repeat split; lra. }
  destruct F1 as (S1 & W1 & M1 & R1 & T1 & A1 & D1).
  assert (A2 : angle (step 1 m1) = 2 * PI - 0.024).
  { rewrite step_angle, S1, W1. unfold centripetalForce.
    rewrite W1, M1, R1, T1, A1, D1.
    destruct (Req_dec_T _ _); [lra |]. destruct (Rgt_dec _ _); [lra |].
    unfold wrapAngle, timeScale; simpl.
    destruct (Rge_dec _ _); [lra |]. destruct (Rlt_dec _ _); lra. }
  rewrite step_angle, step_state, S1, !step_angularVelocity, W1.
  unfold centripetalForce.
  rewrite !step_angularVelocity, step_mass, step_radius, step_maxTension,
    step_rotationDirection, W1, M1, R1, T1, D1, A2.
  destruct (Req_dec_T _ _); [lra |]. destruct (Rgt_dec _ _); [lra |].
  unfold wrapAngle, timeScale; simpl.
  destruct (Rge_dec _ _); [lra |]. destruct (Rlt_dec _ _); lra.
Qed.

(** ** The trajectory buffer is bounded and first-in first-out *)

Lemma sampling_dec (m : Model) :
  sampling m
  \/ (state m = NORMAL_CIRCULAR_MOTION /\ angularVelocity m = 0).
Proof.
  unfold sampling. destruct (state m).
  - destruct (Req_dec_T (angularVelocity m) 0); [right | left]; auto.
  - left. left. reflexivity.
Qed.

Lemma step_withinCapacity (deltaTime : R) (m : Model) :
  withinCapacity m -> withinCapacity (step deltaTime m).
Proof.
  unfold withinCapacity. intros Hm.
  destruct (sampling_dec m) as [Hs | [Hs Hw]].
  - rewrite step_maxTrajectoryPoints, step_trajectoryPoints by exact Hs.
    destruct (trajectoryInterval <=? S (trajectoryCounter m))%nat;
      [| exact Hm].
    rewrite pushBounded_length.
    destruct (Nat.ltb_spec (maxTrajectoryPoints m)
                (S (length (trajectoryPoints m)))); lia.
  - rewrite (step_at_rest _ _ Hs Hw). exact Hm.
Qed.

Lemma exec_withinCapacity (c : Call) (m : Model) :
  withinCapacity m -> withinCapacity (exec c m).
Proof.
  intros Hm. destruct c; simpl; try exact Hm.
  - apply step_withinCapacity. exact Hm.
  - unfold withinCapacity; simpl; lia.
  - unfold withinCapacity; simpl; lia.
Qed.

Lemma exec_maxTrajectoryPoints (c : Call) (m : Model) :
  maxTrajectoryPoints (exec c m) = maxTrajectoryPoints m.
Proof. destruct c; simpl; try reflexivity. apply step_maxTrajectoryPoints. Qed.

Lemma run_withinCapacity (calls : list Call) :
  forall m : Model,
    withinCapacity m ->
    withinCapacity (run calls m)
    /\ maxTrajectoryPoints (run calls m) = maxTrajectoryPoints m.
Proof.
  induction calls as [| c rest IH]; intros m Hm; simpl; [split; auto |].
  destruct (IH (exec c m) (exec_withinCapacity c m Hm)) as [Hcap Hmax].
  split; [exact Hcap | rewrite Hmax; apply exec_maxTrajectoryPoints].
Qed.

(** Within capacity, the bounded push either appends or drops the head
    and appends. *)
Lemma pushBounded_fifo (cap : nat) (pts : list Vector2) (p : Vector2) :
  (length pts <= cap)%nat ->
  ((length pts < cap)%nat /\ pushBounded cap pts p = pts ++ [p])
  \/ (length pts = cap /\ pushBounded cap pts p = tl (pts ++ [p])
      /\ (cap <> 0%nat -> pushBounded cap pts p = tl pts ++ [p])).
Proof.
  intros Hle. unfold pushBounded.
  rewrite length_app; simpl.
  destruct (Nat.ltb_spec cap (length pts + 1)).
  - right. split; [lia |]. split; [reflexivity |].
    intros Hcap. destruct pts as [| q pts']; simpl in *; [lia | reflexivity].
  - left. split; [lia | reflexivity].
Qed.

(** C6: after any sequence of [step], [reset], [clearTrajectory] calls
    and parameter assignments from the initial model, the buffer holds at
    most [maxTrajectoryPoints] = 200 points, and the next step does to it
    exactly this: nothing when the body is at rest on an intact rope, or
    when the counter has not reached the interval; otherwise it appends
    the new position at the end, after removing the first (oldest) point
    when 200 points are held, the other points keeping their order. *)
Theorem trajectory_bounded_fifo (calls : list Call) (deltaTime : R) :
  (length (trajectoryPoints (run calls initialModel))
   <= maxTrajectoryPoints (run calls initialModel))%nat
  /\ maxTrajectoryPoints (run calls initialModel) = 200%nat
  /\ (state (run calls initialModel) = NORMAL_CIRCULAR_MOTION ->
      angularVelocity (run calls initialModel) = 0 ->
      trajectoryPoints (step deltaTime (run calls initialModel))
      = trajectoryPoints (run calls initialModel))
  /\ (state (run calls initialModel) = ROPE_BROKEN
      \/ angularVelocity (run calls initialModel) <> 0 ->
      (S (trajectoryCounter (run calls initialModel)) < trajectoryInterval)%nat ->
      trajectoryPoints (step deltaTime (run calls initialModel))
      = trajectoryPoints (run calls initialModel))
  /\ (state (run calls initialModel) = ROPE_BROKEN
      \/ angularVelocity (run calls initialModel) <> 0 ->
      (trajectoryInterval <= S (trajectoryCounter (run calls initialModel)))%nat ->
      (length (trajectoryPoints (run calls initialModel)) < 200)%nat ->
      trajectoryPoints (step deltaTime (run calls initialModel))
      = trajectoryPoints (run calls initialModel)
        ++ [getBlockPosition (step deltaTime (run calls initialModel))])
  /\ (state (run calls initialModel) = ROPE_BROKEN
      \/ angularVelocity (run calls initialModel) <> 0 ->
      (trajectoryInterval <= S (trajectoryCounter (run calls initialModel)))%nat ->
      length (trajectoryPoints (run calls initialModel)) = 200%nat ->
      trajectoryPoints (step deltaTime (run calls initialModel))
      = tl (trajectoryPoints (run calls initialModel))
        ++ [getBlockPosition (step deltaTime (run calls initialModel))]
      /\ (forall (oldest : Vector2) (others : list Vector2),
             trajectoryPoints (run calls initialModel) = oldest :: others ->
             trajectoryPoints (step deltaTime (run calls initialModel))
             = others
               ++ [getBlockPosition (step deltaTime (run calls initialModel))])).
Proof.
  assert (H0 : withinCapacity initialModel)
    by (unfold withinCapacity; simpl; lia).
  destruct (run_withinCapacity calls initialModel H0) as [Hcap Hmax].
  change (maxTrajectoryPoints initialModel) with 200%nat in Hmax.
  set (m := run calls initialModel) in *.
  unfold withinCapacity in Hcap. rewrite Hmax in Hcap.
  split; [rewrite Hmax; exact Hcap |]. split; [exact Hmax |].
  split; [intros Hs Hw; rewrite (step_at_rest _ _ Hs Hw); reflexivity |].
  split; [| split].
  - intros Hs Hc. rewrite step_trajectoryPoints by exact Hs.
    destruct (Nat.leb_spec trajectoryInterval (S (trajectoryCounter m)));
      [lia | reflexivity].
  - intros Hs Hc Hlen. rewrite step_trajectoryPoints by exact Hs.
    destruct (Nat.leb_spec trajectoryInterval (S (trajectoryCounter m)));
      [| lia].
    rewrite Hmax.
    destruct (pushBounded_fifo 200 (trajectoryPoints m)
                (getBlockPosition (step deltaTime m)) Hcap)
      as [[_ E] | (Hfull & _)]; [exact E | lia].
  - intros Hs Hc Hlen. rewrite step_trajectoryPoints by exact Hs.
    destruct (Nat.leb_spec trajectoryInterval (S (trajectoryCounter m)));
      [| lia].
    rewrite Hmax.
    destruct (pushBounded_fifo 200 (trajectoryPoints m)
                (getBlockPosition (step deltaTime m)) Hcap)
      as [[Hlt _] | (_ & _ & E)]; [lia |].
    rewrite (E ltac:(discriminate)).
    split; [reflexivity |].
    intros oldest others Hpts. rewrite Hpts. reflexivity.
Qed.

(** The bound is reached: 600 frames of the initial model fill the
    buffer. *)
Lemma buffer_full_after_600_steps :
  length (trajectoryPoints (steps 600 initialModel)) = 200%nat.
Proof.
  apply (steps_one_point_per_interval 200 initialModel).
  - right. exact initialModel_moving.
  - reflexivity.
  - simpl. lia.
Qed.

(** ** Motion after the break *)

(** C7: a step taken in BROKEN state keeps [angle], [brokenVelocity],
    [state], the five scalar parameters, [centerPosition] and the buffer
    bound; it moves [brokenPosition] by [brokenVelocity] scaled by
    [pixelsPerMeter * timeScale], the y component further by 0.3; the new
    [brokenPosition] is the same for any two BROKEN models that agree on
    [brokenPosition] and [brokenVelocity], so assigning [angle] or
    [angularVelocity] does not change it. *)
Theorem broken_step_frame (deltaTime : R) (m : Model)
    (Hbroken : state m = ROPE_BROKEN) :
  angle (step deltaTime m) = angle m
  /\ brokenVelocity (step deltaTime m) = brokenVelocity m
  /\ state (step deltaTime m) = state m
  /\ mass (step deltaTime m) = mass m
  /\ angularVelocity (step deltaTime m) = angularVelocity m
  /\ maxTension (step deltaTime m) = maxTension m
  /\ radius (step deltaTime m) = radius m
  /\ rotationDirection (step deltaTime m) = rotationDirection m
  /\ centerPosition (step deltaTime m) = centerPosition m
  /\ maxTrajectoryPoints (step deltaTime m) = maxTrajectoryPoints m
  /\ brokenPosition (step deltaTime m)
     = {| x := x (brokenPosition m)
               + x (brokenVelocity m) * pixelsPerMeter * timeScale;
          y := y (brokenPosition m)
               + y (brokenVelocity m) * pixelsPerMeter * timeScale * 0.3 |}
  /\ (forall m' : Model,
         state m' = ROPE_BROKEN ->
         brokenPosition m' = brokenPosition m ->
         brokenVelocity m' = brokenVelocity m ->
         brokenPosition (step deltaTime m') = brokenPosition (step deltaTime m))
  /\ (forall a w : R,
         brokenPosition (step deltaTime (set_angularVelocity w (set_angle a m)))
         = brokenPosition (step deltaTime m)).
Proof.
  rewrite (step_broken deltaTime m Hbroken).
  autorewrite with sampler_frame. simpl.
  repeat split; try (symmetry; exact Hbroken).
  - intros m' Hb' Hp Hv.
    rewrite (step_broken deltaTime m' Hb'), collect_brokenPosition.
    simpl. rewrite Hp, Hv. reflexivity.
  - intros a w.
    rewrite (step_broken deltaTime (set_angularVelocity w (set_angle a m)))
      by exact Hbroken.
    rewrite collect_brokenPosition. reflexivity.
Qed.

Lemma broken_step_frame_witness :
  brokenPosition (step 1 flyingModel)
  = {| x := 400 + 2 * pixelsPerMeter * timeScale;
       y := 220 + 0 * pixelsPerMeter * timeScale * 0.3 |}.
Proof.
  exact (proj1 (proj2 (proj2 (proj2 (proj2 (proj2 (proj2 (proj2 (proj2 (proj2
    (proj2 (broken_step_frame 1 flyingModel eq_refl)))))))))))).
Defined.

(** ** Sense of rotation *)

Lemma wrapAngle_turns (a : R) :
  exists k : Z, (-1 <= k <= 1)%Z /\ wrapAngle a = a + IZR k * (2 * PI).
Proof.
  unfold wrapAngle.
  destruct (Rge_dec a (2 * PI)); [exists (-1)%Z; split; [lia | simpl; lra] |].
  destruct (Rlt_dec a 0); [exists 1%Z | exists 0%Z]; split; try lia; simpl; lra.
Qed.

(** C8: on an intact rope that holds, with a positive angular velocity,
    a step replaces the angle by the wrap of
    [angle + angularVelocity * timeScale * directionSign], that is, moves
    it by that amount up to one full turn; the sign is +1 and the change
    positive for CLOCKWISE, -1 and negative for COUNTERCLOCKWISE, so that
    whenever no wrap occurs the angle strictly increases, respectively
    strictly decreases. *)
Theorem rotation_direction_sign (deltaTime : R) (m : Model)
    (Hstate : state m = NORMAL_CIRCULAR_MOTION)
    (Hw : angularVelocity m > 0)
    (Hholds : centripetalForce m <= maxTension m) :
  angle (step deltaTime m)
  = wrapAngle (angle m
               + angularVelocity m * timeScale
                 * directionMultiplier (rotationDirection m))
  /\ (exists k : Z,
         (-1 <= k <= 1)%Z
         /\ angle (step deltaTime m)
            = angle m
              + angularVelocity m * timeScale
                * directionMultiplier (rotationDirection m)
              + IZR k * (2 * PI))
  /\ (rotationDirection m = CLOCKWISE ->
      directionMultiplier (rotationDirection m) = 1
      /\ angularVelocity m * timeScale
         * directionMultiplier (rotationDirection m) > 0
      /\ (0 <= angle m ->
          angle m + angularVelocity m * timeScale < 2 * PI ->
          angle (step deltaTime m) = angle m + angularVelocity m * timeScale
          /\ angle (step deltaTime m) > angle m))
  /\ (rotationDirection m = COUNTERCLOCKWISE ->
      directionMultiplier (rotationDirection m) = -1
      /\ angularVelocity m * timeScale
         * directionMultiplier (rotationDirection m) < 0
      /\ (angle m < 2 * PI ->
          0 <= angle m - angularVelocity m * timeScale ->
          angle (step deltaTime m) = angle m - angularVelocity m * timeScale
          /\ angle (step deltaTime m) < angle m)).
Proof.
  assert (Hangle : angle (step deltaTime m)
                   = wrapAngle (angle m
                                + angularVelocity m * timeScale
                                  * directionMultiplier (rotationDirection m))).
  { rewrite step_angle, Hstate.
    destruct (Req_dec_T _ _); [lra |].
    destruct (Rgt_dec _ _); [lra | reflexivity]. }
  assert (Hts : angularVelocity m * timeScale > 0)
    by (unfold timeScale; lra).
  rewrite Hangle.
  split; [reflexivity |]. split; [apply wrapAngle_turns |].
  split; intros Hd; rewrite Hd; simpl; (split; [reflexivity |]);
    (split; [lra |]); intros H1 H2; unfold wrapAngle;
    destruct (Rge_dec _ _); try lra; destruct (Rlt_dec _ _); lra.
Qed.

Lemma initialModel_holds :
  centripetalForce initialModel <= maxTension initialModel.
Proof. unfold centripetalForce. simpl. lra. Qed.

Lemma initialModel_turning : angularVelocity initialModel > 0.
Proof. simpl. lra. Qed.

Lemma initialModel_no_wrap :
  angle initialModel + angularVelocity initialModel * timeScale < 2 * PI.
Proof. unfold timeScale. simpl. pose proof PI2_1. lra. Qed.

Lemma rotation_direction_sign_witness :
  angle (step 1 initialModel)
  = angle initialModel + angularVelocity initialModel * timeScale
  /\ angle (step 1 initialModel) > angle initialModel.
Proof.
  exact (proj2 (proj2 (proj1 (proj2 (proj2
    (rotation_direction_sign 1 initialModel eq_refl
       initialModel_turning initialModel_holds))) eq_refl))
    (Rle_refl 0) initialModel_no_wrap).
Defined.

(** ** [reset] *)

(** C9: [reset] after [reset] is [reset]; after it the angle is 0, the
    state NORMAL, the buffer empty with its counter at 0, and the broken
    position and velocity are zero. *)
Theorem reset_idempotent (m : Model) :
  reset (reset m) = reset m
  /\ angle (reset m) = 0
  /\ state (reset m) = NORMAL_CIRCULAR_MOTION
  /\ trajectoryPoints (reset m) = []
  /\ trajectoryCounter (reset m) = 0%nat
  /\ brokenPosition (reset m) = {| x := 0; y := 0 |}
  /\ brokenVelocity (reset m) = {| x := 0; y := 0 |}.
Proof. repeat split. Qed.

(** C10: [reset] gives [state], [angle], [brokenPosition],
    [brokenVelocity] and the trajectory buffer (with its counter) the
    values they have in a new model, and keeps [mass], [angularVelocity],
    [maxTension], [radius], [rotationDirection] and [centerPosition] (and
    the buffer bound). *)
Theorem reset_frame (m : Model) :
  (state (reset m) = state initialModel
   /\ angle (reset m) = angle initialModel
   /\ brokenPosition (reset m) = brokenPosition initialModel
   /\ brokenVelocity (reset m) = brokenVelocity initialModel
   /\ trajectoryPoints (reset m) = trajectoryPoints initialModel
   /\ trajectoryCounter (reset m) = trajectoryCounter initialModel)
  /\ (mass (reset m) = mass m
      /\ angularVelocity (reset m) = angularVelocity m
      /\ maxTension (reset m) = maxTension m
      /\ radius (reset m) = radius m
      /\ rotationDirection (reset m) = rotationDirection m
      /\ centerPosition (reset m) = centerPosition m
      /\ maxTrajectoryPoints (reset m) = maxTrajectoryPoints m).
Proof. repeat split. Qed.


(** * Where rounding decides *)

Module Binary64Facts.
Import PrimFloat.
Import Binary64.
Local Open Scope float_scope.

Lemma b64_positive_is_not_zero (w : float) :
  ltb 0 w = true -> eqb w 0 = false.
Proof.
  rewrite FloatAxioms.ltb_spec, FloatAxioms.eqb_spec.
  change (FloatOps.Prim2SF 0) with (SpecFloat.S754_zero false).
  destruct (FloatOps.Prim2SF w) as [s | s | | s m e]; simpl;
    try discriminate; try reflexivity.
  - destruct s; simpl; try discriminate; reflexivity.
  - destruct s; simpl; try discriminate; reflexivity.
Qed.

Lemma b64_collect_state (cos sin : float -> float)
    (m : CircularMotionSimulationModel) :
  state (collectTrajectoryPoint cos sin m) = state m.
Proof.
  unfold collectTrajectoryPoint. cbv zeta.
  destruct (trajectoryInterval <=? S (trajectoryCounter m))%nat; reflexivity.
Qed.

Lemma b64_collect_angle (cos sin : float -> float)
    (m : CircularMotionSimulationModel) :
  angle (collectTrajectoryPoint cos sin m) = angle m.
Proof.
  unfold collectTrajectoryPoint. cbv zeta.
  destruct (trajectoryInterval <=? S (trajectoryCounter m))%nat; reflexivity.
Qed.

(** The state after one [step], case by case. *)
Lemma b64_step_state (cos sin : float -> float) (deltaTime : float)
    (m : CircularMotionSimulationModel) :
  state (step cos sin deltaTime m) =
  match state m with
  | NORMAL_CIRCULAR_MOTION =>
      if eqb (angularVelocity m) 0 then NORMAL_CIRCULAR_MOTION
      else if ltb (maxTension m) (centripetalForce m) then ROPE_BROKEN
      else NORMAL_CIRCULAR_MOTION
  | ROPE_BROKEN => ROPE_BROKEN
  end.
Proof.
  unfold step. destruct (state m) eqn:Hs.
  - destruct (eqb (angularVelocity m) 0); [exact Hs |].
    rewrite b64_collect_state.
    destruct (ltb (maxTension m) (centripetalForce m)); [reflexivity |].
    cbv zeta. destruct (leb _ _); [exact Hs |].
    destruct (ltb _ 0); exact Hs.
  - rewrite b64_collect_state. exact Hs.
Qed.

(** C1, as stated, fails on the program's numbers.  With mass 0.1,
    angular velocity 1, radius 3 and maxTension 0.3 the step breaks the
    rope although [0.1 * 1^2 * 3] does not exceed [0.3]; with mass 0.04,
    angular velocity 1, radius 7.5 and maxTension 0.3 the state stays
    NORMAL although the exact product of the four doubles exceeds the
    double of the limit. *)
Lemma rounding_moves_the_break_threshold :
  (forall cos sin : float -> float,
      state (controlsModel d0_1 1 3 d0_3) = NORMAL_CIRCULAR_MOTION
      /\ ltb 0 (angularVelocity (controlsModel d0_1 1 3 d0_3)) = true
      /\ state (step cos sin 1 (controlsModel d0_1 1 3 d0_3)) = ROPE_BROKEN)
  /\ ~ (0.1 * 1 ^ 2 * 3 > 0.3)%R
  /\ (forall cos sin : float -> float,
         state (controlsModel d0_04 1 d7_5 d0_3) = NORMAL_CIRCULAR_MOTION
         /\ ltb 0 (angularVelocity (controlsModel d0_04 1 d7_5 d0_3)) = true
         /\ state (step cos sin 1 (controlsModel d0_04 1 d7_5 d0_3))
            = NORMAL_CIRCULAR_MOTION)
  /\ QArith_base.Qlt (toQ d0_3)
       (QArith_base.Qmult
          (QArith_base.Qmult
             (QArith_base.Qmult (toQ d0_04) (toQ 1)) (toQ 1))
          (toQ d7_5)).
Proof.
  split; [intros cos sin; repeat split; rewrite b64_step_state; reflexivity |].
  split; [lra |].
  split; [intros cos sin; repeat split; rewrite b64_step_state; reflexivity |].
  vm_compute. reflexivity.
Qed.

(** C1, amended: in NORMAL state with a positive angular velocity, [step]
    breaks the rope exactly when the centripetal force as the program
    computes it (mass times angular velocity times angular velocity times
    radius, rounded to binary64 after each multiplication) is strictly
    greater than [maxTension]; with mass 2, radius 1 and maxTension 50
    the angular velocities 4.99 and 5 stay NORMAL and 5.01 breaks. *)
Theorem step_breaks_iff_computed_force_exceeds_tension
    (cos sin : float -> float) (deltaTime : float)
    (m : CircularMotionSimulationModel)
    (Hstate : state m = NORMAL_CIRCULAR_MOTION)
    (Hw : ltb 0 (angularVelocity m) = true) :
  (state (step cos sin deltaTime m) = ROPE_BROKEN
   <-> ltb (maxTension m)
         (mass m * angularVelocity m * angularVelocity m * radius m) = true)
  /\ (state (step cos sin deltaTime m) <> ROPE_BROKEN ->
      state (step cos sin deltaTime m) = NORMAL_CIRCULAR_MOTION)
  /\ (mass m = 2 -> radius m = 1 -> maxTension m = 50 ->
      (angularVelocity m = d4_99 ->
       state (step cos sin deltaTime m) = NORMAL_CIRCULAR_MOTION)
      /\ (angularVelocity m = 5 ->
          state (step cos sin deltaTime m) = NORMAL_CIRCULAR_MOTION)
      /\ (angularVelocity m = d5_01 ->
          state (step cos sin deltaTime m) = ROPE_BROKEN)).
Proof.
  rewrite b64_step_state, Hstate, (b64_positive_is_not_zero _ Hw).
  unfold centripetalForce.
  split; [| split].
  - destruct (ltb (maxTension m) _); split; intros H;
      try reflexivity; discriminate H.
  - destruct (ltb (maxTension m) _); intros H;
      [exfalso; apply H |]; reflexivity.
  - intros Hm Hr Ht. rewrite Hm, Hr, Ht.
    repeat split; intros E; rewrite E; reflexivity.
Qed.

Lemma step_breaks_iff_computed_force_exceeds_tension_witness :
  state (step (fun _ => 0) (fun _ => 0) 1 (controlsModel 2 d4_99 1 50))
  = NORMAL_CIRCULAR_MOTION
  /\ state (step (fun _ => 0) (fun _ => 0) 1 (controlsModel 2 5 1 50))
     = NORMAL_CIRCULAR_MOTION
  /\ state (step (fun _ => 0) (fun _ => 0) 1 (controlsModel 2 d5_01 1 50))
     = ROPE_BROKEN.
Proof.
  split; [| split].
  - exact (proj1 (proj2 (proj2
      (step_breaks_iff_computed_force_exceeds_tension
         (fun _ => 0) (fun _ => 0) 1 (controlsModel 2 d4_99 1 50)
         eq_refl eq_refl)) eq_refl eq_refl eq_refl) eq_refl).
  - exact (proj1 (proj2 (proj2 (proj2
      (step_breaks_iff_computed_force_exceeds_tension
         (fun _ => 0) (fun _ => 0) 1 (controlsModel 2 5 1 50)
         eq_refl eq_refl)) eq_refl eq_refl eq_refl)) eq_refl).
  - exact (proj2 (proj2 (proj2 (proj2
      (step_breaks_iff_computed_force_exceeds_tension
         (fun _ => 0) (fun _ => 0) 1 (controlsModel 2 d5_01 1 50)
         eq_refl eq_refl)) eq_refl eq_refl eq_refl)) eq_refl).
Defined.

(** C5: from the initial model, with the angular velocity set to 0.07
    (inside the control range), three CLOCKWISE frames followed by three
    COUNTERCLOCKWISE frames leave the angle equal to [2 * Math.PI]: the
    last step reaches a negative angle of magnitude [2^-61], and adding
    [2 * Math.PI] to it rounds to [2 * Math.PI] itself, so the test
    [angle >= 2 * Math.PI] of [step] holds of the angle that [step]
    stored, and the angle is not below [2 * Math.PI]. *)
Theorem wrap_rounds_up_to_two_pi (cos sin : float -> float) :
  leb 0 d0_07 = true /\ leb d0_07 2 = true
  /\ state (thereAndBack cos sin) = NORMAL_CIRCULAR_MOTION
  /\ angle (steps cos sin 2
              (set_rotationDirection COUNTERCLOCKWISE
                 (steps cos sin 3 (set_angularVelocity d0_07 initialModel))))
     + d0_07 * timeScale * directionMultiplier COUNTERCLOCKWISE
     = - 0x1p-61
  /\ angle (thereAndBack cos sin) = 2 * PI
  /\ leb (2 * PI) (angle (thereAndBack cos sin)) = true
  /\ ltb (angle (thereAndBack cos sin)) (2 * PI) = false.
Proof. repeat split; vm_compute; reflexivity. Qed.

End Binary64Facts.


(** * Further properties of the simulation page *)

(** ** The trail does not act on the motion *)

Lemma clear_collect (m : Model) :
  clearTrajectory (collectTrajectoryPoint m) = clearTrajectory m.
Proof.
  unfold collectTrajectoryPoint; cbv zeta.
  match goal with
  | |- context [if (trajectoryInterval <=? ?c)%nat then _ else _] =>
      destruct (trajectoryInterval <=? c)%nat
  end; reflexivity.
Qed.

Lemma clear_step (deltaTime : R) (m1 m2 : Model) :
  clearTrajectory m1 = clearTrajectory m2 ->
  clearTrajectory (step deltaTime m1) = clearTrajectory (step deltaTime m2).
Proof.
  destruct m1 as [a1 ms1 w1 t1 r1 c1 d1 s1 bp1 bv1 pts1 mx1 cnt1].
  destruct m2 as [a2 ms2 w2 t2 r2 c2 d2 s2 bp2 bv2 pts2 mx2 cnt2].
  intros E.
  unfold clearTrajectory, set_trajectoryCounter, set_trajectoryPoints in E.
  simpl in E. injection E as -> -> -> -> -> -> -> -> -> -> ->.
  unfold step; cbn [state angularVelocity].
  destruct s2.
  - destruct (Req_dec_T w2 0); [reflexivity |].
    rewrite !clear_collect.
    unfold centripetalForce; cbn [mass angularVelocity radius maxTension].
    destruct (Rgt_dec _ _); [reflexivity |].
    cbv zeta; cbn [angle rotationDirection].
    destruct (Rge_dec _ _); [reflexivity |].
    destruct (Rlt_dec _ _); reflexivity.
  - rewrite !clear_collect. reflexivity.
Qed.

Lemma clear_exec (c : Call) (m1 m2 : Model) :
  clearTrajectory m1 = clearTrajectory m2 ->
  clearTrajectory (exec c m1) = clearTrajectory (exec c m2).
Proof.
  intros E. destruct c; simpl; try (apply clear_step; exact E);
    destruct m1, m2;
    unfold clearTrajectory, set_trajectoryCounter, set_trajectoryPoints in *;
    simpl in *; injection E as -> -> -> -> -> -> -> -> -> -> ->;
    reflexivity.
Qed.

Lemma clear_run (calls : list Call) :
  forall m1 m2 : Model,
    clearTrajectory m1 = clearTrajectory m2 ->
    clearTrajectory (run calls m1) = clearTrajectory (run calls m2).
Proof.
  induction calls as [| c rest IH]; intros m1 m2 E; simpl; [exact E |].
  apply IH. apply clear_exec. exact E.
Qed.

Lemma run_app (calls1 calls2 : list Call) (m : Model) :
  run (calls1 ++ calls2) m = run calls2 (run calls1 m).
Proof.
  revert m. induction calls1 as [| c rest IH]; intros m; simpl;
    [reflexivity | apply IH].
Qed.

(** X1: a [clearTrajectory] call inserted anywhere in a session changes
    nothing but the trail: at the end of the session every field other
    than [trajectoryPoints] and [trajectoryCounter] has the value it has
    without the call. *)
Theorem clearTrajectory_leaves_motion
    (before after : list Call) (m : Model) :
  clearTrajectory (run (before ++ CallClearTrajectory :: after) m)
  = clearTrajectory (run (before ++ after) m)
  /\ angle (run (before ++ CallClearTrajectory :: after) m)
     = angle (run (before ++ after) m)
  /\ state (run (before ++ CallClearTrajectory :: after) m)
     = state (run (before ++ after) m)
  /\ brokenPosition (run (before ++ CallClearTrajectory :: after) m)
     = brokenPosition (run (before ++ after) m)
  /\ brokenVelocity (run (before ++ CallClearTrajectory :: after) m)
     = brokenVelocity (run (before ++ after) m)
  /\ getBlockPosition (run (before ++ CallClearTrajectory :: after) m)
     = getBlockPosition (run (before ++ after) m).
Proof.
  assert (E : clearTrajectory (run (before ++ CallClearTrajectory :: after) m)
              = clearTrajectory (run (before ++ after) m)).
  { rewrite !run_app. simpl. apply clear_run. reflexivity. }
  split; [exact E |].
  repeat split.
  - exact (f_equal angle E).
  - exact (f_equal state E).
  - exact (f_equal brokenPosition E).
  - exact (f_equal brokenVelocity E).
  - exact (f_equal getBlockPosition E).
Qed.

(** ** Free flight *)

Lemma exec_broken_flight (c : Call) (m : Model) :
  c <> CallReset -> state m = ROPE_BROKEN ->
  brokenVelocity (exec c m) = brokenVelocity m
  /\ brokenPosition (exec c m)
     = {| x := x (brokenPosition m)
               + INR (countSteps [c])
                 * (x (brokenVelocity m) * pixelsPerMeter * timeScale);
          y := y (brokenPosition m)
               + INR (countSteps [c])
                 * (y (brokenVelocity m) * pixelsPerMeter * timeScale * 0.3) |}.
Proof.
  intros Hc Hb.
  destruct c; try contradiction; simpl;
    try (split; [reflexivity |];
         destruct (brokenPosition m) as [px py]; simpl; f_equal; ring).
  rewrite (step_broken deltaTime m Hb).
  autorewrite with sampler_frame. simpl.
  split; [reflexivity | f_equal; ring].
Qed.

Lemma run_broken_flight (calls : list Call) :
  forall m : Model,
    state m = ROPE_BROKEN -> ~ In CallReset calls ->
    brokenVelocity (run calls m) = brokenVelocity m
    /\ brokenPosition (run calls m)
       = {| x := x (brokenPosition m)
                 + INR (countSteps calls)
                   * (x (brokenVelocity m) * pixelsPerMeter * timeScale);
            y := y (brokenPosition m)
                 + INR (countSteps calls)
                   * (y (brokenVelocity m) * pixelsPerMeter * timeScale * 0.3) |}.
Proof.
  induction calls as [| c rest IH]; intros m Hb Hn.
  - simpl. split; [reflexivity |].
    destruct (brokenPosition m) as [px py]; simpl; f_equal; ring.
  - assert (Hc : c <> CallReset) by (intros E; apply Hn; left; exact E).
    assert (Hrest : ~ In CallReset rest)
      by (intros H; apply Hn; right; exact H).
    destruct (exec_broken_flight c m Hc Hb) as [Hv Hp].
    destruct (IH (exec c m) (exec_keeps_broken c m Hc Hb) Hrest) as [Hv' Hp'].
    change (run (c :: rest) m) with (run rest (exec c m)).
    rewrite Hv', Hp', Hv, Hp. split; [reflexivity |].
    assert (Hcount : INR (countSteps (c :: rest))
                     = INR (countSteps [c]) + INR (countSteps rest)).
    { rewrite <- plus_INR. f_equal. destruct c; reflexivity. }
    rewrite Hcount. cbn [x y]. f_equal; ring.
Qed.

(** X2: once the rope is broken and until [reset], the body moves on a
    straight line at constant speed whatever is assigned to the controls:
    [brokenVelocity] keeps its value, and [brokenPosition] is the position
    at the start plus the number of [step] calls times
    [brokenVelocity * pixelsPerMeter * timeScale] (times 0.3 on y). *)
Theorem broken_flight_is_uniform (calls : list Call) (m : Model)
    (Hbroken : state m = ROPE_BROKEN)
    (Hnoreset : ~ In CallReset calls) :
  brokenVelocity (run calls m) = brokenVelocity m
  /\ brokenPosition (run calls m)
     = {| x := x (brokenPosition m)
               + INR (countSteps calls)
                 * (x (brokenVelocity m) * pixelsPerMeter * timeScale);
          y := y (brokenPosition m)
               + INR (countSteps calls)
                 * (y (brokenVelocity m) * pixelsPerMeter * timeScale * 0.3) |}.
Proof. exact (run_broken_flight calls m Hbroken Hnoreset). Qed.

Lemma broken_flight_is_uniform_witness :
  brokenVelocity (run editsWithoutReset flyingModel) = {| x := 2; y := 0 |}
  /\ brokenPosition (run editsWithoutReset flyingModel)
     = {| x := 400 + INR 3 * (2 * pixelsPerMeter * timeScale);
          y := 220 + INR 3 * (0 * pixelsPerMeter * timeScale * 0.3) |}.
Proof.
  exact (broken_flight_is_uniform editsWithoutReset flyingModel eq_refl
           editsWithoutReset_no_reset).
Defined.

(** ** The orbit outline *)

Lemma TrajectoryNode_ellipse_some (visible : bool) (m : Model)
    (e : R * R * R * R) :
  TrajectoryNode_ellipse visible m = Some e ->
  visible = true /\ state m = NORMAL_CIRCULAR_MOTION
  /\ e = (x (centerPosition m), y (centerPosition m),
          radius m, radius m * 0.3).
Proof.
  unfold TrajectoryNode_ellipse.
  destruct visible; simpl; [| discriminate].
  destruct (state m); [| discriminate].
  intros E. injection E as <-. repeat split.
Qed.

(** X3: whenever [TrajectoryNode] draws its dashed ellipse, the body is
    on the ellipse of half-axes [radius * pixelsPerMeter] and
    [radius * pixelsPerMeter * 0.3] about the centre, and, unless the
    radius is 0, it is not on the ellipse that is drawn, whose half-axes
    are [radius] and [radius * 0.3]. *)
Theorem body_is_off_the_drawn_orbit (visible : bool) (m : Model)
    (e : R * R * R * R)
    (Hdrawn : TrajectoryNode_ellipse visible m = Some e) :
  onEllipse (x (centerPosition m), y (centerPosition m),
             radius m * pixelsPerMeter, radius m * pixelsPerMeter * 0.3)
    (getBlockPosition m)
  /\ (radius m <> 0 -> ~ onEllipse e (getBlockPosition m))
  /\ (radius m = 0 -> onEllipse e (getBlockPosition m)).
Proof.
  destruct (TrajectoryNode_ellipse_some visible m e Hdrawn) as (_ & Hs & ->).
  unfold onEllipse, getBlockPosition. rewrite Hs. cbv zeta. cbn [x y].
  split; [| split].
  - exists (angle m). split; ring.
  - intros Hr [t [Hx Hy]]. unfold pixelsPerMeter in *.
    assert (Hc : cos t = 100 * cos (angle m)).
    { apply (Rmult_eq_reg_l (radius m)); [lra | exact Hr]. }
    assert (Hsn : sin t = 100 * sin (angle m)).
    { apply (Rmult_eq_reg_l (radius m)); [lra | exact Hr]. }
    pose proof (sin2_cos2 t) as Ut. pose proof (sin2_cos2 (angle m)) as Ua.
    unfold Rsqr in *. rewrite Hc, Hsn in Ut. nra.
  - intros Hr. exists (angle m). rewrite Hr. split; ring.
Qed.

Lemma initialModel_radius : radius initialModel <> 0.
Proof. simpl. lra. Qed.

Lemma body_is_off_the_drawn_orbit_witness :
  ~ onEllipse (300, 220, 1.0, 1.0 * 0.3) (getBlockPosition initialModel).
Proof.
  exact (proj1 (proj2
    (body_is_off_the_drawn_orbit true initialModel
       (300, 220, 1.0, 1.0 * 0.3) eq_refl)) initialModel_radius).
Defined.

(** ** Arrow lengths *)

Lemma clamp_spec (lo hi v : R) :
  lo <= hi ->
  lo <= Rmax lo (Rmin v hi) <= hi
  /\ (v <= lo -> Rmax lo (Rmin v hi) = lo)
  /\ (lo <= v <= hi -> Rmax lo (Rmin v hi) = v)
  /\ (hi <= v -> Rmax lo (Rmin v hi) = hi).
Proof.
  intros Hlohi. unfold Rmin.
  destruct (Rle_dec v hi); unfold Rmax;
    match goal with
    | |- context [Rle_dec ?a ?b] => destruct (Rle_dec a b)
    end; repeat split; intros; lra.
Qed.

Lemma clamp_mono (lo hi v v' : R) :
  v <= v' -> Rmax lo (Rmin v hi) <= Rmax lo (Rmin v' hi).
Proof.
  intros Hv. apply Rle_max_compat_l. apply Rle_min_compat_r. exact Hv.
Qed.

(** X4: the velocity arrow is between 30 and 80 long and never shorter
    for a larger [linearVelocity]: 30 up to 0.6 m/s, [50 * linearVelocity]
    up to 1.6 m/s, 80 beyond.  The length is read from the live
    [angularVelocity] and [radius] in both states: after the break it
    does not depend on [brokenVelocity]. *)
Theorem velocity_arrow_length (m m' : Model) :
  30 <= velocityMagnitude m <= 80
  /\ (linearVelocity m <= linearVelocity m' ->
      velocityMagnitude m <= velocityMagnitude m')
  /\ (linearVelocity m <= 0.6 -> velocityMagnitude m = 30)
  /\ (0.6 <= linearVelocity m <= 1.6 ->
      velocityMagnitude m = linearVelocity m * 50)
  /\ (1.6 <= linearVelocity m -> velocityMagnitude m = 80)
  /\ (forall v : Vector2,
         velocityMagnitude (set_brokenVelocity v m) = velocityMagnitude m).
Proof.
  assert (Hfrozen : forall v : Vector2,
             velocityMagnitude (set_brokenVelocity v m) = velocityMagnitude m)
    by reflexivity.
  unfold velocityMagnitude in *.
  destruct (clamp_spec 30 80 (linearVelocity m * 50)) as (Hb & Hlo & Hmid & Hhi);
    [lra |].
  split; [exact Hb |].
  split; [intros H; apply clamp_mono; lra |].
  split; [intros H; apply Hlo; lra |].
  split; [intros H; rewrite Hmid; [reflexivity | lra] |].
  split; [intros H; apply Hhi; lra | exact Hfrozen].
Qed.

Lemma velocity_arrow_length_witness :
  velocityMagnitude initialModel <= velocityMagnitude (breakingModel CLOCKWISE).
Proof.
  refine (proj1 (proj2
    (velocity_arrow_length initialModel (breakingModel CLOCKWISE))) _).
  unfold linearVelocity. simpl. lra.
Defined.

(** X5: for a nonzero mass the acceleration arrow does not depend on the
    mass: its length is [angularVelocity^2 * radius * 20] clamped to
    [[30, 70]]. *)
Theorem acceleration_arrow_length (m : Model) (Hmass : mass m <> 0) :
  accelerationMagnitude m
  = Rmax 30 (Rmin (angularVelocity m * angularVelocity m * radius m * 20) 70)
  /\ 30 <= accelerationMagnitude m <= 70
  /\ (forall v : R,
         v <> 0 ->
         accelerationMagnitude (set_mass v m) = accelerationMagnitude m).
Proof.
  assert (Hgen : forall v : R,
             v <> 0 ->
             accelerationMagnitude (set_mass v m)
             = Rmax 30
                 (Rmin (angularVelocity m * angularVelocity m * radius m * 20)
                    70)).
  { intros v Hv. unfold accelerationMagnitude, centripetalForce. simpl.
    replace (v * angularVelocity m * angularVelocity m * radius m / v * 20)
      with (angularVelocity m * angularVelocity m * radius m * 20)
      by (field; exact Hv).
    reflexivity. }
  assert (Hm : accelerationMagnitude m
               = Rmax 30
                   (Rmin (angularVelocity m * angularVelocity m * radius m * 20)
                      70)).
  { rewrite <- (Hgen (mass m) Hmass). destruct m; reflexivity. }
  split; [exact Hm |]. split.
  - rewrite Hm. apply clamp_spec. lra.
  - intros v Hv. rewrite Hm. apply Hgen. exact Hv.
Qed.

Lemma initialModel_mass : mass initialModel <> 0.
Proof. simpl. lra. Qed.

Lemma acceleration_arrow_length_witness :
  30 <= accelerationMagnitude initialModel <= 70.
Proof.
  exact (proj1 (proj2 (acceleration_arrow_length initialModel initialModel_mass))).
Defined.

(** ** The reset button *)

Lemma exec_centerPosition (c : Call) (m : Model) :
  centerPosition (exec c m) = centerPosition m.
Proof. destruct c; simpl; try reflexivity. apply step_centerPosition. Qed.

Lemma run_fixed_fields (calls : list Call) :
  forall m : Model,
    centerPosition (run calls m) = centerPosition m
    /\ maxTrajectoryPoints (run calls m) = maxTrajectoryPoints m.
Proof.
  induction calls as [| c rest IH]; intros m; simpl; [split; reflexivity |].
  destruct (IH (exec c m)) as [Hc Hm].
  rewrite Hc, Hm, exec_centerPosition, exec_maxTrajectoryPoints.
  split; reflexivity.
Qed.

(** X6: whatever the session before it, [handleReset] (the model's
    [reset] followed by the restored control values) brings the model back
    to the model of a freshly opened page, field for field. *)
Theorem handleReset_restores_initialModel (calls : list Call) :
  handleReset (run calls initialModel) = initialModel.
Proof.
  destruct (run_fixed_fields calls initialModel) as [Hc Hm].
  destruct (run calls initialModel)
    as [a ms w t r c d s bp bv pts mx cnt].
  simpl in Hc, Hm. subst c mx. reflexivity.
Qed.

(** ** Degenerate bodies *)

Lemma steps_fixed_parameters (n : nat) :
  forall m : Model,
    mass (steps n m) = mass m /\ radius (steps n m) = radius m
    /\ maxTension (steps n m) = maxTension m.
Proof.
  induction n as [| n IH]; intros m; simpl; [repeat split |].
  destruct (IH (step 1 m)) as (Hm & Hr & Ht).
  rewrite Hm, Hr, Ht, step_mass, step_radius, step_maxTension.
  repeat split.
Qed.

(** X7: a body whose [mass * radius] is zero or negative never breaks a
    rope of non-negative [maxTension]: the state is NORMAL after any
    number of frames, whatever the angular velocity. *)
Theorem degenerate_body_never_breaks (n : nat) (m : Model)
    (Hstate : state m = NORMAL_CIRCULAR_MOTION)
    (Hbody : mass m * radius m <= 0)
    (Hrope : 0 <= maxTension m) :
  state (steps n m) = NORMAL_CIRCULAR_MOTION.
Proof.
  revert m Hstate Hbody Hrope.
  induction n as [| n IH]; intros m Hstate Hbody Hrope; simpl;
    [exact Hstate |].
  apply IH.
  - rewrite step_state, Hstate.
    destruct (Req_dec_T _ _); [reflexivity |].
    destruct (Rgt_dec _ _) as [Hgt | _]; [| reflexivity].
    exfalso. unfold centripetalForce in Hgt.
    pose proof (Rle_0_sqr (angularVelocity m)) as Hsq. unfold Rsqr in Hsq.
    nra.
  - rewrite step_mass, step_radius. exact Hbody.
  - rewrite step_maxTension. exact Hrope.
Qed.

Lemma pointModel_body : mass pointModel * radius pointModel <= 0.
Proof. simpl. lra. Qed.

Lemma pointModel_rope : 0 <= maxTension pointModel.
Proof. simpl. lra. Qed.

Lemma degenerate_body_never_breaks_witness :
  state (steps 1000 pointModel) = NORMAL_CIRCULAR_MOTION.
Proof.
  exact (degenerate_body_never_breaks 1000 pointModel eq_refl
           pointModel_body pointModel_rope).
Defined.

(** ** The length of the trail *)

Lemma three_steps_bounded (m : Model) :
  sampling m -> trajectoryCounter m = 0%nat -> withinCapacity m ->
  trajectoryCounter (steps 3 m) = 0%nat
  /\ length (trajectoryPoints (steps 3 m))
     = Nat.min (S (length (trajectoryPoints m))) (maxTrajectoryPoints m)
  /\ maxTrajectoryPoints (steps 3 m) = maxTrajectoryPoints m
  /\ sampling (steps 3 m).
Proof.
  unfold withinCapacity. intros Hs Hc Hlen. cbn [steps].
  pose proof (step_sampling 1 m Hs) as Hs1.
  pose proof (step_sampling 1 _ Hs1) as Hs2.
  pose proof (step_sampling 1 _ Hs2) as Hs3.
  assert (C1 : trajectoryCounter (step 1 m) = 1%nat)
    by (rewrite step_trajectoryCounter, Hc by assumption; reflexivity).
  assert (P1 : trajectoryPoints (step 1 m) = trajectoryPoints m)
    by (rewrite step_trajectoryPoints, Hc by assumption; reflexivity).
  assert (C2 : trajectoryCounter (step 1 (step 1 m)) = 2%nat)
    by (rewrite step_trajectoryCounter, C1 by assumption; reflexivity).
  assert (P2 : trajectoryPoints (step 1 (step 1 m)) = trajectoryPoints m)
    by (rewrite step_trajectoryPoints, C1 by assumption; exact P1).
  repeat split; try assumption.
  - rewrite step_trajectoryCounter, C2 by assumption; reflexivity.
  - rewrite step_trajectoryPoints, C2 by assumption.
    change (trajectoryInterval <=? 3)%nat with true. cbv iota.
    rewrite pushBounded_length, P2, !step_maxTrajectoryPoints.
    destruct (Nat.ltb_spec (maxTrajectoryPoints m)
                (S (length (trajectoryPoints m)))); lia.
  - rewrite !step_maxTrajectoryPoints. reflexivity.
Qed.

Lemma steps_whole_intervals (k : nat) :
  forall m : Model,
    sampling m -> trajectoryCounter m = 0%nat -> withinCapacity m ->
    trajectoryCounter (steps (3 * k) m) = 0%nat
    /\ length (trajectoryPoints (steps (3 * k) m))
       = Nat.min (length (trajectoryPoints m) + k) (maxTrajectoryPoints m)
    /\ maxTrajectoryPoints (steps (3 * k) m) = maxTrajectoryPoints m
    /\ sampling (steps (3 * k) m).
Proof.
  induction k as [| k IH]; intros m Hs Hc Hlen.
  - change (3 * 0)%nat with 0%nat. cbn [steps].
    unfold withinCapacity in Hlen. repeat split; try assumption. lia.
  - replace (3 * S k)%nat with (3 + 3 * k)%nat by lia.
    rewrite steps_add.
    destruct (three_steps_bounded m Hs Hc Hlen) as (C & L & M & S3).
    assert (Hcap3 : withinCapacity (steps 3 m))
      by (unfold withinCapacity; rewrite L, M; lia).
    destruct (IH (steps 3 m) S3 C Hcap3) as (C' & L' & M' & S').
    unfold withinCapacity in Hlen.
    repeat split; try assumption.
    + rewrite L', L, M. lia.
    + rewrite M', M. reflexivity.
Qed.

Lemma steps_partial_interval (r : nat) (m : Model) :
  sampling m -> trajectoryCounter m = 0%nat -> (r < 3)%nat ->
  trajectoryCounter (steps r m) = r
  /\ trajectoryPoints (steps r m) = trajectoryPoints m.
Proof.
  intros Hs Hc Hr.
  pose proof (step_sampling 1 m Hs) as Hs1.
  assert (C1 : trajectoryCounter (step 1 m) = 1%nat)
    by (rewrite step_trajectoryCounter, Hc by assumption; reflexivity).
  assert (P1 : trajectoryPoints (step 1 m) = trajectoryPoints m)
    by (rewrite step_trajectoryPoints, Hc by assumption; reflexivity).
  destruct r as [| [| [| r]]]; simpl.
  - split; [exact Hc | reflexivity].
  - split; assumption.
  - split.
    + rewrite step_trajectoryCounter, C1 by assumption; reflexivity.
    + rewrite step_trajectoryPoints, C1 by assumption; exact P1.
  - lia.
Qed.

Lemma steps_buffer (k r : nat) (m : Model) :
  sampling m -> trajectoryCounter m = 0%nat -> withinCapacity m ->
  (r < 3)%nat ->
  trajectoryCounter (steps (3 * k + r) m) = r
  /\ length (trajectoryPoints (steps (3 * k + r) m))
     = Nat.min (length (trajectoryPoints m) + k) (maxTrajectoryPoints m).
Proof.
  intros Hs Hc Hlen Hr. rewrite steps_add.
  destruct (steps_whole_intervals k m Hs Hc Hlen) as (C & L & _ & S').
  destruct (steps_partial_interval r _ S' C Hr) as [C' P'].
  rewrite C', P', L. split; reflexivity.
Qed.

(** X8: from a counter at 0, while the body is not at rest on an intact
    rope, after [3 * k + r] frames ([r < 3]) the counter is [r] and the
    trail holds [k] more points than at the start, up to
    [maxTrajectoryPoints], where it stays. *)
Theorem trail_length_after_frames (k r : nat) (m : Model)
    (Hsampling : state m = ROPE_BROKEN \/ angularVelocity m <> 0)
    (Hcounter : trajectoryCounter m = 0%nat)
    (Hcapacity : (length (trajectoryPoints m) <= maxTrajectoryPoints m)%nat)
    (Hr : (r < 3)%nat) :
  trajectoryCounter (steps (3 * k + r) m) = r
  /\ length (trajectoryPoints (steps (3 * k + r) m))
     = Nat.min (length (trajectoryPoints m) + k) (maxTrajectoryPoints m).
Proof. exact (steps_buffer k r m Hsampling Hcounter Hcapacity Hr). Qed.

Lemma trail_length_after_frames_witness :
  trajectoryCounter (steps (3 * 250 + 2) initialModel) = 2%nat
  /\ length (trajectoryPoints (steps (3 * 250 + 2) initialModel))
     = Nat.min (0 + 250) 200.
Proof.
  exact (trail_length_after_frames 250 2 initialModel
           (or_intror initialModel_moving) eq_refl (Nat.le_0_l 200)
           (Nat.lt_succ_diag_r 2)).
Defined.

(** X9: after [clearTrajectory], with the body not at rest on an intact
    rope and a buffer bound of at least 2, a visible [TrajectoryPathNode]
    draws nothing during the first five frames and draws from the sixth
    frame on. *)
Theorem trail_reappears_after_six_frames (n : nat) (m : Model)
    (Hsampling : state m = ROPE_BROKEN \/ angularVelocity m <> 0)
    (Hbound : (2 <= maxTrajectoryPoints m)%nat) :
  TrajectoryPathNode_polyline true (steps n (clearTrajectory m)) <> None
  <-> (6 <= n)%nat.
Proof.
  assert (Hs : sampling (clearTrajectory m)) by exact Hsampling.
  assert (Hcap : withinCapacity (clearTrajectory m))
    by (unfold withinCapacity; simpl; lia).
  pose proof (Nat.div_mod_eq n 3) as Hn.
  pose proof (Nat.mod_upper_bound n 3 ltac:(discriminate)) as Hr.
  destruct (steps_buffer (n / 3) (n mod 3) (clearTrajectory m) Hs eq_refl
              Hcap Hr) as [_ L].
  rewrite <- Hn in L.
  change (maxTrajectoryPoints (clearTrajectory m))
    with (maxTrajectoryPoints m) in L.
  change (length (trajectoryPoints (clearTrajectory m))) with 0%nat in L.
  unfold TrajectoryPathNode_polyline. cbn [negb orb].
  destruct (Nat.ltb_spec
              (length (trajectoryPoints (steps n (clearTrajectory m)))) 2)
    as [Hlt | Hge].
  - split; [intros H; exfalso; apply H; reflexivity | intros H; lia].
  - split; [intros _; lia | intros _; discriminate].
Qed.

Lemma trail_reappears_after_six_frames_witness :
  TrajectoryPathNode_polyline true (steps 6 (clearTrajectory initialModel))
  <> None.
Proof.
  exact (proj2 (trail_reappears_after_six_frames 6 initialModel
                  (or_intror initialModel_moving)
                  (proj1 (Nat.leb_le 2 200) eq_refl))
           (Nat.le_refl 6)).
Defined.


(** ** The trail of the free flight *)

Lemma steps_run (n : nat) :
  forall m : Model, steps n m = run (repeat (CallStep 1) n) m.
Proof.
  induction n as [| n IH]; intros m; simpl; [reflexivity | apply IH].
Qed.

Lemma repeat_step_no_reset (n : nat) : ~ In CallReset (repeat (CallStep 1) n).
Proof. intros H. apply repeat_spec in H. discriminate H. Qed.

Lemma countSteps_repeat (n : nat) : countSteps (repeat (CallStep 1) n) = n.
Proof. induction n as [| n IH]; simpl; [reflexivity | rewrite IH; reflexivity]. Qed.

Lemma steps_flight (n : nat) (m : Model) :
  state m = ROPE_BROKEN ->
  state (steps n m) = ROPE_BROKEN
  /\ getBlockPosition (steps n m) = flightPoint m n.
Proof.
  intros Hb. rewrite steps_run.
  assert (Hs : state (run (repeat (CallStep 1) n) m) = ROPE_BROKEN).
  { destruct (run_broken_or_reset (repeat (CallStep 1) n) m Hb) as [H | H];
      [exact H | exfalso; exact (repeat_step_no_reset n H)]. }
  split; [exact Hs |].
  unfold getBlockPosition. rewrite Hs.
  destruct (run_broken_flight _ m Hb (repeat_step_no_reset n)) as [_ Hp].
  rewrite Hp, countSteps_repeat. reflexivity.
Qed.

Lemma three_steps_points (m : Model) :
  sampling m -> trajectoryCounter m = 0%nat ->
  (length (trajectoryPoints m) < maxTrajectoryPoints m)%nat ->
  trajectoryPoints (steps 3 m)
  = trajectoryPoints m ++ [getBlockPosition (steps 3 m)].
Proof.
  intros Hs Hc Hlen. cbn [steps].
  pose proof (step_sampling 1 m Hs) as Hs1.
  pose proof (step_sampling 1 _ Hs1) as Hs2.
  assert (C1 : trajectoryCounter (step 1 m) = 1%nat)
    by (rewrite step_trajectoryCounter, Hc by assumption; reflexivity).
  assert (P1 : trajectoryPoints (step 1 m) = trajectoryPoints m)
    by (rewrite step_trajectoryPoints, Hc by assumption; reflexivity).
  assert (C2 : trajectoryCounter (step 1 (step 1 m)) = 2%nat)
    by (rewrite step_trajectoryCounter, C1 by assumption; reflexivity).
  assert (P2 : trajectoryPoints (step 1 (step 1 m)) = trajectoryPoints m)
    by (rewrite step_trajectoryPoints, C1 by assumption; exact P1).
  rewrite step_trajectoryPoints, C2 by assumption.
  change (trajectoryInterval <=? 3)%nat with true. cbv iota.
  rewrite P2, !step_maxTrajectoryPoints.
  unfold pushBounded. rewrite length_app. cbn [length].
  destruct (Nat.ltb_spec (maxTrajectoryPoints m)
              (length (trajectoryPoints m) + 1)); [lia | reflexivity].
Qed.

(** X17: after the break, from an empty trail and a counter at 0, the
    trail built by [3 * k] frames ([k] within the buffer bound) is the
    list of the [k] points reached after 3, 6, ..., [3 * k] frames of
    uniform straight motion, in that order. *)
Theorem broken_trail_is_evenly_spaced (k : nat) (m : Model)
    (Hbroken : state m = ROPE_BROKEN)
    (Hcounter : trajectoryCounter m = 0%nat)
    (Hempty : trajectoryPoints m = [])
    (Hk : (k <= maxTrajectoryPoints m)%nat) :
  trajectoryPoints (steps (3 * k) m)
  = map (fun j => flightPoint m (3 * (j + 1))) (seq 0 k).
Proof.
  revert Hk. induction k as [| k IH]; intros Hk.
  - change (3 * 0)%nat with 0%nat. cbn [steps seq map]. exact Hempty.
  - assert (Hs : sampling m) by (left; exact Hbroken).
    assert (Hcap : withinCapacity m)
      by (unfold withinCapacity; rewrite Hempty; simpl; lia).
    destruct (steps_whole_intervals k m Hs Hcounter Hcap) as (C & L & M & S').
    rewrite Hempty in L. cbn [length] in L.
    replace (3 * S k)%nat with (3 * k + 3)%nat by lia.
    rewrite steps_add, three_steps_points; try assumption; [| rewrite L, M; lia].
    rewrite IH by lia. rewrite <- steps_add.
    destruct (steps_flight (3 * k + 3) m Hbroken) as [_ Hpos]. rewrite Hpos.
    rewrite seq_S, map_app. cbn [map]. do 3 f_equal. lia.
Qed.

Lemma broken_trail_is_evenly_spaced_witness :
  trajectoryPoints (steps (3 * 2) flyingModel)
  = [flightPoint flyingModel 3; flightPoint flyingModel 6].
Proof.
  exact (broken_trail_is_evenly_spaced 2 flyingModel eq_refl eq_refl eq_refl
           (proj1 (Nat.leb_le 2 200) eq_refl)).
Defined.


(** ** Eviction at a full buffer *)

Lemma steps_angularVelocity (n : nat) :
  forall m : Model, angularVelocity (steps n m) = angularVelocity m.
Proof.
  induction n as [| n IH]; intros m; simpl; [reflexivity |].
  rewrite IH. apply step_angularVelocity.
Qed.

Lemma fullSession_moving :
  state (run fullSession initialModel) = ROPE_BROKEN
  \/ angularVelocity (run fullSession initialModel) <> 0.
Proof.
  right. unfold fullSession. rewrite <- steps_run, steps_angularVelocity.
  exact initialModel_moving.
Qed.

Lemma fullSession_buffer :
  trajectoryCounter (run fullSession initialModel) = 2%nat
  /\ length (trajectoryPoints (run fullSession initialModel)) = 200%nat.
Proof.
  unfold fullSession. rewrite <- steps_run.
  exact (steps_buffer 200 2 initialModel (or_intror initialModel_moving)
           eq_refl (Nat.le_0_l 200) (Nat.lt_succ_diag_r 2)).
Qed.

Lemma fullSession_fires :
  (trajectoryInterval <= S (trajectoryCounter (run fullSession initialModel)))%nat.
Proof. rewrite (proj1 fullSession_buffer). apply Nat.le_refl. Qed.

Lemma trajectory_bounded_fifo_witness :
  trajectoryPoints (step 1 (run fullSession initialModel))
  = tl (trajectoryPoints (run fullSession initialModel))
    ++ [getBlockPosition (step 1 (run fullSession initialModel))].
Proof.
  exact (proj1 (proj2 (proj2 (proj2 (proj2 (proj2
    (trajectory_bounded_fifo fullSession 1)))))
    fullSession_moving fullSession_fires (proj2 fullSession_buffer))).
Defined.


(** * The landing page *)

Lemma PhETHome_step_angularVelocity (deltaTime : R)
    (m : PhETHome.CircularMotionModel) :
  PhETHome.angularVelocity (PhETHome.step deltaTime m)
  = PhETHome.angularVelocity m.
Proof.
  unfold PhETHome.step. cbv zeta. destruct (Rge_dec _ _); reflexivity.
Qed.

Lemma PhETHome_step_angle (deltaTime : R) (m : PhETHome.CircularMotionModel) :
  0 <= PhETHome.angle m < 2 * PI ->
  0 <= PhETHome.angularVelocity m <= 2 * PI ->
  0 <= PhETHome.angle (PhETHome.step deltaTime m) < 2 * PI.
Proof.
  intros Ha Hw. unfold PhETHome.step. cbv zeta.
  destruct (Rge_dec _ _); simpl; lra.
Qed.

(** X10: on the landing page, with the angle in [[0, 2 * PI)] and an
    angular velocity in [[0, 2 * PI]] (0.05 in the page), the angle is in
    [[0, 2 * PI)] after any number of frames; [step] has no test below 0,
    so a step that takes the angle below 0 leaves it there. *)
Theorem PhETHome_angle_stays_wrapped (n : nat)
    (m : PhETHome.CircularMotionModel)
    (Hangle : 0 <= PhETHome.angle m < 2 * PI)
    (Hw : 0 <= PhETHome.angularVelocity m <= 2 * PI) :
  0 <= PhETHome.angle (PhETHome.steps n m) < 2 * PI
  /\ (forall m' : PhETHome.CircularMotionModel,
         PhETHome.angle m' + PhETHome.angularVelocity m' < 0 ->
         PhETHome.angle (PhETHome.step 1 m')
         = PhETHome.angle m' + PhETHome.angularVelocity m').
Proof.
  split.
  - revert m Hangle Hw. induction n as [| n IH]; intros m Ha Hw; simpl;
      [exact Ha |].
    apply IH.
    + apply PhETHome_step_angle; assumption.
    + rewrite PhETHome_step_angularVelocity. exact Hw.
  - intros m' Hneg. unfold PhETHome.step. cbv zeta. pose proof PI2_1.
    destruct (Rge_dec _ _); [lra | reflexivity].
Qed.

Lemma PhETHome_initial_angle :
  0 <= PhETHome.angle PhETHome.initialModel < 2 * PI.
Proof. simpl. pose proof PI2_1. lra. Qed.

Lemma PhETHome_initial_angularVelocity :
  0 <= PhETHome.angularVelocity PhETHome.initialModel <= 2 * PI.
Proof. simpl. pose proof PI2_1. lra. Qed.

Lemma PhETHome_angle_stays_wrapped_witness :
  0 <= PhETHome.angle (PhETHome.steps 1000 PhETHome.initialModel) < 2 * PI.
Proof.
  exact (proj1 (PhETHome_angle_stays_wrapped 1000 PhETHome.initialModel
                  PhETHome_initial_angle PhETHome_initial_angularVelocity)).
Defined.

Lemma PhETHome_offset (m : PhETHome.CircularMotionModel) :
  (x (PhETHome.centerPosition m) - x (PhETHome.getBlockPosition m))
  * (x (PhETHome.centerPosition m) - x (PhETHome.getBlockPosition m))
  + (y (PhETHome.centerPosition m) - y (PhETHome.getBlockPosition m))
    * (y (PhETHome.centerPosition m) - y (PhETHome.getBlockPosition m))
  = PhETHome.radius m * PhETHome.radius m
    * (cos (PhETHome.angle m) * cos (PhETHome.angle m)
       + 0.09 * (sin (PhETHome.angle m) * sin (PhETHome.angle m))).
Proof.
  unfold PhETHome.getBlockPosition. cbn [x y].
  replace 0.3 with (3 / 10) by lra. replace 0.09 with (9 / 100) by lra.
  field.
Qed.

(** X11: [getCentripetalForceDirection] returns a vector of length 1
    that, scaled by the distance, leads from the block to the centre,
    unless the radius is 0, in which case it returns the zero vector;
    it never divides by zero. *)
Theorem PhETHome_force_direction (m : PhETHome.CircularMotionModel) :
  (PhETHome.radius m <> 0 ->
   x (PhETHome.getCentripetalForceDirection m)
   * x (PhETHome.getCentripetalForceDirection m)
   + y (PhETHome.getCentripetalForceDirection m)
     * y (PhETHome.getCentripetalForceDirection m) = 1
   /\ exists distance : R,
       distance > 0
       /\ x (PhETHome.getBlockPosition m)
          + distance * x (PhETHome.getCentripetalForceDirection m)
          = x (PhETHome.centerPosition m)
       /\ y (PhETHome.getBlockPosition m)
          + distance * y (PhETHome.getCentripetalForceDirection m)
          = y (PhETHome.centerPosition m))
  /\ (PhETHome.radius m = 0 ->
      PhETHome.getCentripetalForceDirection m = {| x := 0; y := 0 |}).
Proof.
  pose proof (PhETHome_offset m) as Hoff.
  unfold PhETHome.getCentripetalForceDirection. cbv zeta.
  set (dx := x (PhETHome.centerPosition m) - x (PhETHome.getBlockPosition m))
    in *.
  set (dy := y (PhETHome.centerPosition m) - y (PhETHome.getBlockPosition m))
    in *.
  split.
  - intros Hr.
    assert (Hpos : 0 < dx * dx + dy * dy).
    { rewrite Hoff.
      pose proof (sin2_cos2 (PhETHome.angle m)) as Hu. unfold Rsqr in Hu.
      assert (0 < PhETHome.radius m * PhETHome.radius m) by nra.
      assert (0 <= cos (PhETHome.angle m) * cos (PhETHome.angle m)) by nra.
      nra. }
    pose proof (sqrt_lt_R0 _ Hpos) as Hsqrt.
    pose proof (sqrt_sqrt (dx * dx + dy * dy) (Rlt_le _ _ Hpos)) as Hsq.
    destruct (Rgt_dec (sqrt (dx * dx + dy * dy)) 0) as [_ | N]; [| lra].
    set (d := sqrt (dx * dx + dy * dy)) in *. cbn [x y].
    split.
    + transitivity ((dx * dx + dy * dy) / (d * d)); [field; lra |].
      rewrite Hsq. field. lra.
    + exists d. split; [exact Hsqrt |].
      unfold dx, dy. split; field; lra.
  - intros Hr.
    assert (Hzero : dx * dx + dy * dy = 0) by (rewrite Hoff, Hr; ring).
    rewrite Hzero, sqrt_0.
    destruct (Rgt_dec 0 0); [lra | reflexivity].
Qed.

Lemma PhETHome_initial_radius : PhETHome.radius PhETHome.initialModel <> 0.
Proof. simpl. lra. Qed.

Lemma PhETHome_force_direction_witness :
  x (PhETHome.getCentripetalForceDirection PhETHome.initialModel)
  * x (PhETHome.getCentripetalForceDirection PhETHome.initialModel)
  + y (PhETHome.getCentripetalForceDirection PhETHome.initialModel)
    * y (PhETHome.getCentripetalForceDirection PhETHome.initialModel) = 1.
Proof.
  exact (proj1 (proj1 (PhETHome_force_direction PhETHome.initialModel)
                  PhETHome_initial_radius)).
Defined.

(** * The first home page *)

Lemma PI_between : 3.14 < PI < 3.15.
Proof.
  pose proof (PI_2_3_7_ineq 1) as [Hlo Hhi].
  unfold sum_f_R0, tg_alt, PI_2_3_7_tg, Ratan_seq in Hlo, Hhi.
  simpl in Hlo, Hhi.
  split; lra.
Qed.

Lemma Home_angle_rises (r : nat) :
  forall n : nat,
    Home.angleAfter n = 0 -> (r <= 314)%nat ->
    Home.angleAfter (r + n) = Home.angularSpeed * INR r.
Proof.
  induction r as [| r IH]; intros n Hn Hr.
  - simpl. rewrite Hn. ring.
  - change (Home.angleAfter (S r + n))
      with (Home.updateAngle (Home.angleAfter (r + n))).
    rewrite (IH n Hn) by lia.
    assert (Hle : INR r <= 313).
    { replace 313 with (INR 313) by (rewrite INR_IZR_INZ; reflexivity).
      apply le_INR. lia. }
    unfold Home.updateAngle, Home.angularSpeed in *. cbv zeta.
    rewrite S_INR. pose proof PI_between.
    destruct (Rge_dec _ _); lra.
Qed.

Lemma Home_angle_falls (n : nat) :
  Home.angleAfter n = 0 -> Home.angleAfter (315 + n) = 0.
Proof.
  intros Hn.
  change (Home.angleAfter (315 + n))
    with (Home.updateAngle (Home.angleAfter (314 + n))).
  rewrite (Home_angle_rises 314 n Hn) by lia.
  replace (INR 314) with 314 by (rewrite INR_IZR_INZ; reflexivity).
  unfold Home.updateAngle, Home.angularSpeed. cbv zeta.
  pose proof PI_between.
  destruct (Rge_dec _ _); [reflexivity | lra].
Qed.

Lemma Home_angle_turns (q : nat) : Home.angleAfter (315 * q) = 0.
Proof.
  induction q as [| q IH].
  - reflexivity.
  - replace (315 * S q)%nat with (315 + 315 * q)%nat by lia.
    apply Home_angle_falls. exact IH.
Qed.

(** X12: on the first home page the angle has a period of 315 frames:
    after [315 * q + r] frames ([r < 315]) it is [0.02 * r]; it is put
    back to exactly 0, and so stays in [[0, 6.28]], below [2 * PI]. *)
Theorem Home_angle_period (q r : nat) (Hr : (r < 315)%nat) :
  Home.angleAfter (r + 315 * q) = Home.angularSpeed * INR r
  /\ 0 <= Home.angleAfter (r + 315 * q) <= 6.28
  /\ Home.angleAfter (r + 315 * q) < 2 * PI.
Proof.
  assert (E : Home.angleAfter (r + 315 * q) = Home.angularSpeed * INR r)
    by (apply Home_angle_rises; [apply Home_angle_turns | lia]).
  rewrite E. split; [reflexivity |].
  assert (Hle : INR r <= 314).
  { replace 314 with (INR 314) by (rewrite INR_IZR_INZ; reflexivity).
    apply le_INR. lia. }
  pose proof (pos_INR r). pose proof PI_between.
  unfold Home.angularSpeed. lra.
Qed.

Lemma Home_angle_period_witness :
  Home.angleAfter (314 + 315 * 2) = Home.angularSpeed * INR 314.
Proof.
  exact (proj1 (Home_angle_period 2 314 (Nat.lt_succ_diag_r 314))).
Defined.


(** * The quiz page *)

Section QuizScoring.

Variable parseFloat : String.string -> option R.

Lemma Quiz_fold_bounds (answers : Quiz.Answers) (qs : list Quiz.Question) :
  forall acc : nat,
    (acc
     <= fold_left
          (fun correct question =>
             if Quiz.scores parseFloat answers question
             then S correct else correct)
          qs acc
     <= acc + Quiz.totalChoiceAndCalc qs)%nat.
Proof.
  induction qs as [| q rest IH]; intros acc.
  - simpl. lia.
  - cbn [fold_left].
    unfold Quiz.totalChoiceAndCalc in *. cbn [filter].
    destruct q as [id c | id c t | id];
      cbn [length];
      match goal with
      | |- context [if ?b then S acc else acc] =>
          destruct b eqn:Hb
      end;
      match goal with
      | |- context [fold_left ?f rest ?a] => specialize (IH a)
      end; try lia.
    discriminate Hb.
Qed.

Lemma Quiz_total_le_length (qs : list Quiz.Question) :
  (Quiz.totalChoiceAndCalc qs <= length qs)%nat.
Proof. unfold Quiz.totalChoiceAndCalc. apply filter_length_le. Qed.

(** X13: whatever the answers and whatever [parseFloat] returns, the
    score is at most the number of choice and calculation questions (the
    denominator shown with it), which is at most the number of
    questions; for the questions of the page these are 6 and 7. *)
Theorem Quiz_score_bounded (qs : list Quiz.Question) (answers : Quiz.Answers) :
  (Quiz.calculateScore parseFloat qs answers <= Quiz.totalChoiceAndCalc qs)%nat
  /\ (Quiz.totalChoiceAndCalc qs <= length qs)%nat
  /\ Quiz.totalChoiceAndCalc Quiz.questions = 6%nat
  /\ length Quiz.questions = 7%nat
  /\ (Quiz.calculateScore parseFloat Quiz.questions answers <= 6)%nat.
Proof.
  split; [apply (Quiz_fold_bounds answers qs 0) |].
  split; [apply Quiz_total_le_length |].
  split; [reflexivity |]. split; [reflexivity |].
  apply (Quiz_fold_bounds answers Quiz.questions 0).
Qed.

Lemma Quiz_fold_ext (answers1 answers2 : Quiz.Answers)
    (qs : list Quiz.Question) :
  Forall (fun q => Quiz.scores parseFloat answers1 q
                   = Quiz.scores parseFloat answers2 q) qs ->
  forall acc : nat,
    fold_left
      (fun correct question =>
         if Quiz.scores parseFloat answers1 question
         then S correct else correct)
      qs acc
    = fold_left
        (fun correct question =>
           if Quiz.scores parseFloat answers2 question
           then S correct else correct)
        qs acc.
Proof.
  induction 1 as [| q rest Hq _ IH]; intros acc; [reflexivity |].
  cbn [fold_left]. rewrite Hq. apply IH.
Qed.

Lemma Quiz_fold_none (answers : Quiz.Answers) (qs : list Quiz.Question) :
  Forall (fun q => Quiz.scores parseFloat answers q = false) qs ->
  forall acc : nat,
    fold_left
      (fun correct question =>
         if Quiz.scores parseFloat answers question
         then S correct else correct)
      qs acc
    = acc.
Proof.
  induction 1 as [| q rest Hq _ IH]; intros acc; [reflexivity |].
  cbn [fold_left]. rewrite Hq. apply IH.
Qed.

(** X14: a question left without an answer never counts, so with no
    answer at all (as after the restart button) the score is 0 for any
    question list: an undefined answer is never within a tolerance. *)
Theorem Quiz_unanswered_scores_nothing (qs : list Quiz.Question)
    (answers : Quiz.Answers) :
  (forall q : Quiz.Question,
      answers (Quiz.questionId q) = None ->
      Quiz.scores parseFloat answers q = false)
  /\ Quiz.calculateScore parseFloat qs Quiz.noAnswers = 0%nat.
Proof.
  assert (Hq : forall (a : Quiz.Answers) (q : Quiz.Question),
             a (Quiz.questionId q) = None ->
             Quiz.scores parseFloat a q = false).
  { intros a q Hnone. destruct q as [id c | id c t | id]; simpl in *;
      rewrite ?Hnone; reflexivity. }
  split; [apply Hq |].
  apply Quiz_fold_none. apply Forall_forall. intros q _. apply Hq. reflexivity.
Qed.

Lemma Quiz_scores_setAnswer (id : nat) (v : Quiz.Answer)
    (answers : Quiz.Answers) (q : Quiz.Question) :
  match q with
  | Quiz.OpenQuestion _ => True
  | _ => Quiz.questionId q <> id
  end ->
  Quiz.scores parseFloat (Quiz.setAnswer id v answers) q
  = Quiz.scores parseFloat answers q.
Proof.
  destruct q as [i c | i c t | i]; simpl; intros Hq;
    unfold Quiz.setAnswer; try reflexivity;
    destruct (Nat.eqb_spec i id); try contradiction; reflexivity.
Qed.

(** X15: an answer typed into the open question does not change the
    score, provided its key is not the id of a choice or calculation
    question (as in the page, where the open question has id 7). *)
Theorem Quiz_open_answer_is_not_scored (qs : list Quiz.Question)
    (id : nat) (value : String.string) (answers : Quiz.Answers)
    (Hid : Forall (fun q => match q with
                            | Quiz.OpenQuestion _ => True
                            | _ => Quiz.questionId q <> id
                            end) qs) :
  Quiz.calculateScore parseFloat qs (Quiz.handleOpenAnswer id value answers)
  = Quiz.calculateScore parseFloat qs answers.
Proof.
  unfold Quiz.calculateScore, Quiz.handleOpenAnswer.
  apply Quiz_fold_ext.
  induction Hid as [| q rest Hq _ IH]; constructor; [| exact IH].
  apply Quiz_scores_setAnswer. exact Hq.
Qed.

End QuizScoring.

Lemma Quiz_questions_open_id :
  Forall (fun q => match q with
                   | Quiz.OpenQuestion _ => True
                   | _ => Quiz.questionId q <> 7%nat
                   end) Quiz.questions.
Proof. unfold Quiz.questions. repeat constructor; simpl; discriminate. Qed.

Lemma Quiz_open_answer_is_not_scored_witness :
  Quiz.calculateScore (fun _ => None) Quiz.questions
    (Quiz.handleOpenAnswer 7 String.EmptyString
       (Quiz.handleChoiceAnswer 1 2 Quiz.noAnswers))
  = Quiz.calculateScore (fun _ => None) Quiz.questions
      (Quiz.handleChoiceAnswer 1 2 Quiz.noAnswers).
Proof.
  exact (Quiz_open_answer_is_not_scored (fun _ => None) Quiz.questions 7
           String.EmptyString (Quiz.handleChoiceAnswer 1 2 Quiz.noAnswers)
           Quiz_questions_open_id).
Defined.

(** ** Navigation *)

Lemma Quiz_click_ok (n : nat) (c : Quiz.Click) (s : Quiz.Navigation) :
  Quiz_navigation_ok n s -> Quiz_navigation_ok n (Quiz.click n c s).
Proof.
  unfold Quiz_navigation_ok, Quiz.click, Quiz.nextQuestion,
    Quiz.prevQuestion, Quiz.restart.
  destruct s as [i r]; simpl. intros [Hi Hr].
  destruct r; destruct c; simpl;
    repeat match goal with
           | |- context [(?a <? ?b)%nat] => destruct (Nat.ltb_spec a b)
           end; simpl; split; try lia; try discriminate; intros; lia.
Qed.

Lemma Quiz_clicks_ok (n : nat) (cs : list Quiz.Click) :
  forall s : Quiz.Navigation,
    Quiz_navigation_ok n s -> Quiz_navigation_ok n (Quiz.clicks n cs s).
Proof.
  induction cs as [| c rest IH]; intros s Hs; simpl; [exact Hs |].
  apply IH. apply Quiz_click_ok. exact Hs.
Qed.

(** X16: over a non-empty question list, whatever buttons are clicked
    from the first question, the current index designates a question of
    the list, the results are shown only while the index is the last one,
    and the progress bar is above 0 and at most 100 percent. *)
Theorem Quiz_navigation_stays_in_range (qs : list Quiz.Question)
    (cs : list Quiz.Click) (Hqs : qs <> []) :
  (Quiz.currentQuestionIndex
     (Quiz.clicks (length qs) cs (Quiz.mkNavigation 0 false))
   < length qs)%nat
  /\ nth_error qs
       (Quiz.currentQuestionIndex
          (Quiz.clicks (length qs) cs (Quiz.mkNavigation 0 false)))
     <> None
  /\ (Quiz.showResults
        (Quiz.clicks (length qs) cs (Quiz.mkNavigation 0 false)) = true ->
      Quiz.currentQuestionIndex
        (Quiz.clicks (length qs) cs (Quiz.mkNavigation 0 false))
      = (length qs - 1)%nat)
  /\ 0 < Quiz.progress (length qs)
           (Quiz.clicks (length qs) cs (Quiz.mkNavigation 0 false))
     <= 100.
Proof.
  assert (Hlen : (0 < length qs)%nat)
    by (destruct qs; [contradiction | simpl; lia]).
  assert (H0 : Quiz_navigation_ok (length qs) (Quiz.mkNavigation 0 false))
    by (split; simpl; [exact Hlen | discriminate]).
  destruct (Quiz_clicks_ok (length qs) cs _ H0) as [Hi Hr].
  set (s := Quiz.clicks (length qs) cs (Quiz.mkNavigation 0 false)) in *.
  split; [exact Hi |]. split; [apply nth_error_Some; exact Hi |].
  split; [exact Hr |].
  unfold Quiz.progress.
  assert (Ha : 0 < INR (Quiz.currentQuestionIndex s + 1))
    by (apply lt_0_INR; lia).
  assert (Hb : INR (Quiz.currentQuestionIndex s + 1) <= INR (length qs))
    by (apply le_INR; lia).
  assert (Hn : 0 < INR (length qs)) by (apply lt_0_INR; exact Hlen).
  pose proof (Rinv_0_lt_compat _ Hn) as Hinv.
  pose proof (Rinv_r (INR (length qs)) ltac:(lra)) as Hone.
  unfold Rdiv. split; nra.
Qed.

Lemma Quiz_questions_not_empty : Quiz.questions <> [].
Proof. discriminate. Qed.

Lemma Quiz_navigation_stays_in_range_witness :
  (Quiz.currentQuestionIndex
     (Quiz.clicks (length Quiz.questions)
        [Quiz.ClickPrev; Quiz.ClickNext; Quiz.ClickNext]
        (Quiz.mkNavigation 0 false))
   < length Quiz.questions)%nat.
Proof.
  exact (proj1 (Quiz_navigation_stays_in_range Quiz.questions
                  [Quiz.ClickPrev; Quiz.ClickNext; Quiz.ClickNext]
                  Quiz_questions_not_empty)).
Defined.
